(** * fragment_checker: the bounded-concurrency username checker

    A shallow embedding of [fragment_cheker/go_fragmentChacker/main.go].

    - Go strings are byte sequences and are modelled by [string].
    - The body of a goroutine is a small program tree ([Prog]) whose nodes
      are the operations that touch the network or the shared checker
      (request creation, [client.Do], [logResult], [incrementProcessed],
      the semaphore receive and [wg.Done]); [checkUsername] is written in
      that language branch by branch as in the source.
    - [Run] and its goroutines are an interleaving transition system
      ([step]) over the checker, the semaphore channel and the pool.
    - A section of code run under one of the two mutexes ([logResult],
      [incrementProcessed], [GetProgress]) is one step; the mutex is
      part of the checker and is taken and released by the step.
    - Calls to the [Logger] only write to the log file and the console,
      which nothing below observes; they are left out.
    - [readLines], the [Logger] and the start of [main] are modelled on a
      small picture of the operating system ([OS]): files by path, the
      paths that cannot be opened, standard output and the clock. There
      the logger's calls are kept. *)

From Stdlib Require Import String Ascii List ZArith Lia Bool Arith.
From Stdlib Require Import Floats.SpecFloat DecimalString.
From stdpp Require Import base list.
From Equations Require Import Equations.
Import ListNotations.

Local Open Scope string_scope.
Local Open Scope list_scope.
Local Open Scope nat_scope.

Infix "+:+" := String.append (at level 60, right associativity).

(** ** The part of Go's [strings] package the checker calls

    Modelled on the ASCII range: bytes from 0x80 on are left as they are
    (Go additionally consults its Unicode tables for them). *)
Module GoStrings.

(** [asciiSpace] of strings.go: tab, newline, vertical tab, form feed,
    carriage return, space. *)
Definition isSpace (c : ascii) : bool :=
  let n := nat_of_ascii c in
  ((9 <=? n) && (n <=? 13)) || (n =? 32).

Definition isUpper (c : ascii) : bool :=
  let n := nat_of_ascii c in (65 <=? n) && (n <=? 90).

Definition isLower (c : ascii) : bool :=
  let n := nat_of_ascii c in (97 <=? n) && (n <=? 122).

Definition isDigit (c : ascii) : bool :=
  let n := nat_of_ascii c in (48 <=? n) && (n <=? 57).

Definition toLower (c : ascii) : ascii :=
  if isUpper c then ascii_of_nat (nat_of_ascii c + 32) else c.

Definition toUpper (c : ascii) : ascii :=
  if isLower c then ascii_of_nat (nat_of_ascii c - 32) else c.

(** strings.ToLower *)
Fixpoint ToLower (s : string) : string :=
  match s with
  | EmptyString => EmptyString
  | String c s' => String (toLower c) (ToLower s')
  end.

Fixpoint TrimLeftSpace (s : string) : string :=
  match s with
  | EmptyString => EmptyString
  | String c s' => if isSpace c then TrimLeftSpace s' else s
  end.

Fixpoint TrimRightSpace (s : string) : string :=
  match s with
  | EmptyString => EmptyString
  | String c s' =>
      match TrimRightSpace s' with
      | EmptyString => if isSpace c then EmptyString else String c EmptyString
      | t => String c t
      end
  end.

(** strings.TrimSpace *)
Definition TrimSpace (s : string) : string :=
  TrimRightSpace (TrimLeftSpace s).

(** strings.HasPrefix *)
Definition HasPrefix (s pre : string) : bool := String.prefix pre s.

(** strings.TrimPrefix: [s] without the leading [pre], or [s] itself. *)
Definition TrimPrefix (s pre : string) : string :=
  if HasPrefix s pre
  then String.substring (String.length pre) (String.length s - String.length pre) s
  else s.

(** [isSeparator] of strings.go: letters, digits and underscore are not
    separators, every other ASCII byte is. *)
Definition isSeparator (c : ascii) : bool :=
  if (nat_of_ascii c <? 128)
  then negb (isDigit c || isLower c || isUpper c || (nat_of_ascii c =? 95))
  else false.

Fixpoint TitleFrom (prev : ascii) (s : string) : string :=
  match s with
  | EmptyString => EmptyString
  | String c s' =>
      String (if isSeparator prev then toUpper c else c) (TitleFrom c s')
  end.

(** strings.Title: the first letter of every word is upper-cased; the
    scan starts as if a space came before the string. *)
Definition Title (s : string) : string := TitleFrom " "%char s.

(** The one-byte string holding a line feed. *)
Definition nl : string := String (ascii_of_nat 10) EmptyString.

End GoStrings.

Import GoStrings.

(** ** What the network hands back to one [checkUsername] call *)

(** The response body as [goquery] sees it: unreadable, or a document of
    which only the elements matched by [span.tm-section-header-status]
    matter, given by their text contents in document order. *)
Inductive Body : Type :=
| BadHTML (err : string)
| Doc (status_spans : list string).

(** [Selection.Length] and [Selection.Text] (the texts concatenated). *)
Definition Selection_Length (sel : list string) : nat := length sel.

Definition Selection_Text (sel : list string) : string := String.concat "" sel.

(** The result of [uc.client.Do(req)]: an error (time-out, refused
    connection, ...) or a response with the URL of the last request made
    and a body. *)
Inductive DoResult : Type :=
| DoErr (err : string)
| DoOk (finalURL : string) (body : Body).

(** ** Goroutine bodies

    A node is one operation on the network or on shared state; the
    answers of the outside world select the continuation. *)
Inductive Prog : Type :=
| PDone
| PNewRequest (url : string) (k : option string -> Prog)
| PDo (url : string) (k : DoResult -> Prog)
| PLogResult (line : string) (k : Prog)
| PIncrement (k : Prog)
| PRecvSem (k : Prog)
| PWgDone (k : Prog).


Definition queryURL (username : string) : string :=
  "https://fragment.com/?query=" +:+ username.

(** Line 185: the handle as it is used in the request and in the report. *)
Definition normalize (username : string) : string :=
  TrimSpace (TrimPrefix username "@").

(** [checkUsername] (lines 184-252). [ret] is what the caller does after
    the call returns; every [return] of the source goes there. *)
Definition checkUsername (username : string) (ret : Prog) : Prog :=
  let username := TrimSpace (TrimPrefix username "@") in
  let url := "https://fragment.com/username/" +:+ username in
  PNewRequest url (fun err =>
    match err with
    | Some err =>
        PLogResult ("@" +:+ username +:+ " | Error: " +:+ err +:+ nl)
          (PIncrement ret)
    | None =>
        PDo url (fun resp =>
          match resp with
          | DoErr err =>
              PLogResult ("@" +:+ username +:+ " | Error: " +:+ err +:+ nl)
                (PIncrement ret)
          | DoOk finalURL body =>
              if String.eqb finalURL ("https://fragment.com/?query=" +:+ username)
              then
                let result := "@" +:+ username +:+ " | Free" +:+ nl in
                PLogResult result (PIncrement ret)
              else
                match body with
                | BadHTML err =>
                    PLogResult
                      ("@" +:+ username +:+ " | Error parsing HTML: " +:+ err +:+ nl)
                      (PIncrement ret)
                | Doc statusSpan =>
                    if 0 <? Selection_Length statusSpan
                    then
                      let status := ToLower (TrimSpace (Selection_Text statusSpan)) in
                      let result :=
                        if String.eqb status "sold"
                           || String.eqb status "available"
                           || String.eqb status "taken"
                        then
                          let statusCap := Title status in
                          "@" +:+ username +:+ " | " +:+ statusCap +:+ nl
                        else
                          "@" +:+ username +:+ " | Unknown status (" +:+ status +:+ ")" +:+ nl
                      in
                      PLogResult result (PIncrement ret)
                    else
                      let result := "@" +:+ username +:+ " | Status not found" +:+ nl in
                      PLogResult result (PIncrement ret)
                end
          end)
    end).

(** The goroutine of lines 172-176: [checkUsername], then the receive
    from [sem], then the deferred [uc.wg.Done()]. *)
Definition worker (u : string) : Prog :=
  checkUsername u (PRecvSem (PWgDone PDone)).

(** ** The checker and its methods *)

(** Go's [int] on the 64-bit targets: a [Z] kept in range by [int_wrap]. *)
Definition int_max : Z := 9223372036854775807.

Definition int_wrap (z : Z) : Z :=
  ((z + 9223372036854775808) mod 18446744073709551616 - 9223372036854775808)%Z.

(** [time.Second], in nanoseconds. *)
Definition Second : Z := 1000000000.

(** [http.Transport] as lines 140-146 fill it in. A parsed [*url.URL] is
    a function of the string it was parsed from and is kept as that
    string. *)
Record Transport : Type := mkTransport {
  Proxy : string;
  DialTimeout : Z;
  DialKeepAlive : Z
}.

(** [http.Client]; [None] is the zero [Transport] field, with which the
    client goes through [http.DefaultTransport]. *)
Record Client : Type := mkClient {
  Timeout : Z;
  ClientTransport : option Transport
}.

(** [UsernameChecker] (lines 118-131). A mutex is [true] while held, the
    stop channel is [true] once closed, [wg] is the wait-group counter. *)
Record UsernameChecker : Type := mkChecker {
  usernames : list string;
  threads : Z;
  proxies : list string;
  outputFile : string;
  client : Client;
  resultsMu : bool;
  results : list string;
  processed : Z;
  processedMu : bool;
  stopChan : bool;
  wg : nat
}.

(** [NewUsernameChecker] (lines 133-158). [url_Parse] stands for
    [url.Parse]: [Some err] when the string is rejected. *)
Definition NewUsernameChecker (url_Parse : string -> option string)
    (usernames : list string) (threads : Z) (proxies : list string)
    (outputFile : string) : UsernameChecker :=
  let client := mkClient (10 * Second) None in
  let client :=
    if 0 <? length proxies
    then
      match proxies with
      | proxy0 :: _ =>
          match url_Parse proxy0 with
          | None =>
              mkClient (Timeout client)
                (Some (mkTransport proxy0 (10 * Second) (10 * Second)))
          | Some _ => client
          end
      | [] => client
      end
    else client in
  mkChecker usernames threads proxies outputFile client
            false [] 0%Z false false 0.

Definition set_resultsMu (uc : UsernameChecker) (held : bool) :=
  mkChecker (usernames uc) (threads uc) (proxies uc) (outputFile uc) (client uc)
            held (results uc) (processed uc) (processedMu uc) (stopChan uc) (wg uc).

Definition set_results (uc : UsernameChecker) (rs : list string) :=
  mkChecker (usernames uc) (threads uc) (proxies uc) (outputFile uc) (client uc)
            (resultsMu uc) rs (processed uc) (processedMu uc) (stopChan uc) (wg uc).

Definition set_processedMu (uc : UsernameChecker) (held : bool) :=
  mkChecker (usernames uc) (threads uc) (proxies uc) (outputFile uc) (client uc)
            (resultsMu uc) (results uc) (processed uc) held (stopChan uc) (wg uc).

Definition set_processed (uc : UsernameChecker) (n : Z) :=
  mkChecker (usernames uc) (threads uc) (proxies uc) (outputFile uc) (client uc)
            (resultsMu uc) (results uc) n (processedMu uc) (stopChan uc) (wg uc).

Definition set_stopChan (uc : UsernameChecker) (closed : bool) :=
  mkChecker (usernames uc) (threads uc) (proxies uc) (outputFile uc) (client uc)
            (resultsMu uc) (results uc) (processed uc) (processedMu uc) closed (wg uc).

Definition set_wg (uc : UsernameChecker) (n : nat) :=
  mkChecker (usernames uc) (threads uc) (proxies uc) (outputFile uc) (client uc)
            (resultsMu uc) (results uc) (processed uc) (processedMu uc) (stopChan uc) n.

(** [sync.Mutex.Lock]: [None] while another goroutine holds the mutex
    (the caller waits). *)
Definition Lock_resultsMu (uc : UsernameChecker) : option UsernameChecker :=
  if resultsMu uc then None else Some (set_resultsMu uc true).

Definition Lock_processedMu (uc : UsernameChecker) : option UsernameChecker :=
  if processedMu uc then None else Some (set_processedMu uc true).

(** [appendToFile] (lines 264-272) on the lines already in the file;
    [ok] says whether opening and writing succeed. The result is the
    file and whether an error is returned. *)
Definition appendToFile (ok : bool) (file : list string) (text : string)
  : list string * bool :=
  if ok then (file ++ [text], false) else (file, true).

(** [logResult] (lines 254-262) on the checker and the output file. A
    failed write is only reported to the logger. *)
Definition logResult (ok : bool) (result : string)
    (st : UsernameChecker * list string) : option (UsernameChecker * list string) :=
  match Lock_resultsMu (fst st) with
  | None => None
  | Some uc =>
      let uc := set_results uc (results uc ++ [result]) in
      let (file, err) := appendToFile ok (snd st) result in
      Some (set_resultsMu uc false, file)
  end.

(** [incrementProcessed] (lines 274-278). *)
Definition incrementProcessed (uc : UsernameChecker) : option UsernameChecker :=
  match Lock_processedMu uc with
  | None => None
  | Some uc =>
      let uc := set_processed uc (int_wrap (processed uc + 1)) in
      Some (set_processedMu uc false)
  end.

(** [float64(n)] for an [int], and the binary64 operations. *)
Definition float64 (n : Z) : spec_float := binary_normalize 53 1024 n 0 false.

Definition f64_div : spec_float -> spec_float -> spec_float := SFdiv 53 1024.

Definition f64_mul : spec_float -> spec_float -> spec_float := SFmul 53 1024.

(** [GetProgress] (lines 280-287): the checker after the call and the
    three values returned. *)
Definition GetProgress (uc : UsernameChecker)
  : option (UsernameChecker * (Z * Z * spec_float)) :=
  match Lock_processedMu uc with
  | None => None
  | Some uc =>
      let total := Z.of_nat (length (usernames uc)) in
      let nprocessed := processed uc in
      let progress :=
        f64_mul (f64_div (float64 nprocessed) (float64 total)) (float64 100) in
      Some (set_processedMu uc false, (nprocessed, total, progress))
  end.

(** [n] calls of [GetProgress] in a row, with the values they return. *)
Fixpoint GetProgress_times (n : nat) (uc : UsernameChecker)
  : option (UsernameChecker * list (Z * Z * spec_float)) :=
  match n with
  | O => Some (uc, [])
  | S n' =>
      match GetProgress uc with
      | None => None
      | Some (uc', v) =>
          match GetProgress_times n' uc' with
          | None => None
          | Some (uc'', vs) => Some (uc'', v :: vs)
          end
      end
  end.

(** ** [Run] and its goroutines as a transition system *)

(** Where the goroutine that executes [Run] (lines 160-182) stands. *)
Inductive Loc : Type :=
| LStart                 (* before [make(chan struct{}, uc.threads)] *)
| LSelect (i : nat)      (* head of the range loop, at index [i] *)
| LSend (i : nat)        (* default case: [sem <- struct{}{}] *)
| LAdd (i : nat)         (* [uc.wg.Add(1)] *)
| LGo (i : nat)          (* the [go] statement *)
| LWait                  (* [uc.wg.Wait()] *)
| LReturned              (* returned at the end of the function *)
| LStopped               (* returned from the stop case (line 168) *)
| LPanic.                (* [make] with a negative size *)

(** The checker, the position of [Run], the number of elements in the
    channel [sem] and its capacity, the goroutines started so far (in
    the order they were started) and the lines of the output file. *)
Record State : Type := mkState {
  checker : UsernameChecker;
  loc : Loc;
  sem : nat;
  sem_cap : nat;
  pool : list Prog;
  output : list string
}.

(** One step of [Run]. [None]: the goroutine is blocked or has finished.
    A send on [sem] goes through when the buffer has room; with capacity
    0 it would need a receiver that is ready, and none can exist before
    the first send. *)
Definition Run_step (s : State) : option State :=
  let uc := checker s in
  match loc s with
  | LStart =>
      if (threads uc <? 0)%Z
      then Some (mkState uc LPanic (sem s) (sem_cap s) (pool s) (output s))
      else Some (mkState uc (LSelect 0) 0 (Z.to_nat (threads uc)) (pool s) (output s))
  | LSelect i =>
      match usernames uc !! i with
      | None => Some (mkState uc LWait (sem s) (sem_cap s) (pool s) (output s))
      | Some _ =>
          if stopChan uc
          then Some (mkState uc LStopped (sem s) (sem_cap s) (pool s) (output s))
          else Some (mkState uc (LSend i) (sem s) (sem_cap s) (pool s) (output s))
      end
  | LSend i =>
      if sem s <? sem_cap s
      then Some (mkState uc (LAdd i) (S (sem s)) (sem_cap s) (pool s) (output s))
      else None
  | LAdd i =>
      Some (mkState (set_wg uc (S (wg uc))) (LGo i) (sem s) (sem_cap s) (pool s) (output s))
  | LGo i =>
      match usernames uc !! i with
      | Some username =>
          Some (mkState uc (LSelect (S i)) (sem s) (sem_cap s)
                        (pool s ++ [worker username]) (output s))
      | None => None
      end
  | LWait =>
      if wg uc =? 0
      then Some (mkState uc LReturned (sem s) (sem_cap s) (pool s) (output s))
      else None
  | LReturned | LStopped | LPanic => None
  end.

(** What the outside world answers to one step of a goroutine. *)
Record Env : Type := mkEnv {
  new_request : option string;   (* the error of [http.NewRequest], if any *)
  do_result : DoResult;          (* what [client.Do] returns *)
  write_ok : bool                (* whether the write to the output file succeeds *)
}.

(** One step of goroutine [k]: the operation at the head of its program.
    [None]: the goroutine does not exist, has finished or is blocked. *)
Definition Go_step (k : nat) (e : Env) (s : State) : option State :=
  let uc := checker s in
  match pool s !! k with
  | None => None
  | Some PDone => None
  | Some (PNewRequest _ f) =>
      Some (mkState uc (loc s) (sem s) (sem_cap s)
                    (<[k := f (new_request e)]> (pool s)) (output s))
  | Some (PDo _ f) =>
      Some (mkState uc (loc s) (sem s) (sem_cap s)
                    (<[k := f (do_result e)]> (pool s)) (output s))
  | Some (PLogResult line p) =>
      match logResult (write_ok e) line (uc, output s) with
      | None => None
      | Some (uc', out') =>
          Some (mkState uc' (loc s) (sem s) (sem_cap s) (<[k := p]> (pool s)) out')
      end
  | Some (PIncrement p) =>
      match incrementProcessed uc with
      | None => None
      | Some uc' =>
          Some (mkState uc' (loc s) (sem s) (sem_cap s) (<[k := p]> (pool s)) (output s))
      end
  | Some (PRecvSem p) =>
      match sem s with
      | O => None
      | S n =>
          Some (mkState uc (loc s) n (sem_cap s) (<[k := p]> (pool s)) (output s))
      end
  | Some (PWgDone p) =>
      match wg uc with
      | O => None
      | S n =>
          Some (mkState (set_wg uc n) (loc s) (sem s) (sem_cap s)
                        (<[k := p]> (pool s)) (output s))
      end
  end.

(** [close(checker.stopChan)] by the signal goroutine of [main] (lines
    342-346), which runs at most once. *)
Definition Signal_step (s : State) : option State :=
  if stopChan (checker s) then None
  else Some (mkState (set_stopChan (checker s) true) (loc s) (sem s) (sem_cap s)
                     (pool s) (output s)).

Inductive Action : Type :=
| ARun
| AGo (k : nat) (e : Env)
| ASignal.

Definition step (a : Action) (s : State) : option State :=
  match a with
  | ARun => Run_step s
  | AGo k e => Go_step k e s
  | ASignal => Signal_step s
  end.

Fixpoint exec (acts : list Action) (s : State) : option State :=
  match acts with
  | [] => Some s
  | a :: acts' =>
      match step a s with
      | None => None
      | Some s' => exec acts' s'
      end
  end.

(** The state in which [main] calls [Run] (line 369): the checker as
    constructed, the output file emptied (line 321). *)
Definition start (uc : UsernameChecker) : State :=
  mkState uc LStart 0 0 [] [].

Definition Reach (uc : UsernameChecker) (s : State) : Prop :=
  exists acts, exec acts (start uc) = Some s.

Definition is_signal (a : Action) : bool :=
  match a with ASignal => true | _ => false end.

(** [Run] has returned. *)
Definition returned (s : State) : bool :=
  match loc s with
  | LReturned | LStopped => true
  | _ => false
  end.

(** ** Shape of goroutine programs *)

(** How far a program is from its end, by its first operation. *)
Definition weight (p : Prog) : nat :=
  match p with
  | PDone => 0
  | PWgDone _ => 1
  | PRecvSem _ => 2
  | PIncrement _ => 3
  | PLogResult _ _ => 4
  | PDo _ _ => 5
  | PNewRequest _ _ => 6
  end.

(** A program that, whatever the answers, logs one result, increments
    the counter, receives from [sem] and calls [wg.Done], in this order,
    the network operations coming first. *)
Fixpoint WF (p : Prog) : Prop :=
  match p with
  | PDone => True
  | PWgDone k => weight k = 0 /\ WF k
  | PRecvSem k => weight k = 1 /\ WF k
  | PIncrement k => weight k = 2 /\ WF k
  | PLogResult _ k => weight k = 3 /\ WF k
  | PDo _ f => forall r, (weight (f r) = 4) /\ WF (f r)
  | PNewRequest _ f => forall r, (4 <= weight (f r) <= 5) /\ WF (f r)
  end.

(** Has the goroutine logged its result / incremented the counter; does
    it hold a slot of [sem] / count in the wait group. *)
Definition recorded (p : Prog) : bool := weight p <=? 3.

Definition counted (p : Prog) : bool := weight p <=? 2.

Definition holds_slot (p : Prog) : bool := 2 <=? weight p.

Definition in_wg (p : Prog) : bool := 1 <=? weight p.

(** Is it inside [checkUsername]. *)
Definition checking (p : Prog) : bool := 3 <=? weight p.

Fixpoint count (f : Prog -> bool) (l : list Prog) : nat :=
  match l with
  | [] => 0
  | p :: l' => Nat.b2n (f p) + count f l'
  end.

(** ** The invariant of a run *)

Definition pending_sem (l : Loc) : nat :=
  match l with LAdd _ | LGo _ => 1 | _ => 0 end.

Definition pending_wg (l : Loc) : nat :=
  match l with LGo _ => 1 | _ => 0 end.

(** The number [np] of goroutines started so far, against the position
    of [Run] in a list of [total] handles. *)
Definition loc_ok (total : nat) (l : Loc) (np : nat) : Prop :=
  match l with
  | LStart | LPanic => np = 0
  | LSelect i => np = i /\ i <= total
  | LSend i | LAdd i | LGo i => np = i /\ i < total
  | LWait | LReturned => np = total
  | LStopped => np < total
  end.

Definition cap_ok (n : Z) (l : Loc) (cap : nat) : Prop :=
  match l with
  | LStart | LPanic => cap = 0
  | _ => (0 <= n)%Z /\ cap = Z.to_nat n
  end.

(** A checker on which no method has been called yet. *)
Definition Fresh (uc : UsernameChecker) : Prop :=
  resultsMu uc = false /\ results uc = [] /\ processed uc = 0%Z /\
  processedMu uc = false /\ wg uc = 0.

Record Inv (uc0 : UsernameChecker) (s : State) : Prop := mkInv {
  inv_usernames : usernames (checker s) = usernames uc0;
  inv_threads : threads (checker s) = threads uc0;
  inv_resultsMu : resultsMu (checker s) = false;
  inv_processedMu : processedMu (checker s) = false;
  inv_wf : Forall WF (pool s);
  inv_loc : loc_ok (length (usernames uc0)) (loc s) (length (pool s));
  inv_cap : cap_ok (threads uc0) (loc s) (sem_cap s);
  inv_results : length (results (checker s)) = count recorded (pool s);
  inv_processed : processed (checker s) = Z.of_nat (count counted (pool s));
  inv_sem : sem s = count holds_slot (pool s) + pending_sem (loc s);
  inv_sem_le : sem s <= sem_cap s;
  inv_wg : wg (checker s) = count in_wg (pool s) + pending_wg (loc s);
  inv_joined : loc s = LReturned -> count in_wg (pool s) = 0;
  inv_stopped : loc s = LStopped -> stopChan (checker s) = true;
  inv_panic : loc s = LPanic -> (threads uc0 < 0)%Z
}.

(** ** Termination measure *)

Fixpoint total_weight (l : list Prog) : nat :=
  match l with
  | [] => 0
  | p :: l' => weight p + total_weight l'
  end.

(** Steps [Run] still has to make, counting for every handle not yet
    dispatched the steps of its goroutine too. *)
Definition Run_fuel (total : nat) (l : Loc) : nat :=
  match l with
  | LStart => 10 * total + 4
  | LSelect i => 10 * (total - i) + 3
  | LSend i => 10 * (total - i) + 2
  | LAdd i => 10 * (total - i) + 1
  | LGo i => 10 * (total - i)
  | LWait => 1
  | LReturned | LStopped | LPanic => 0
  end.

Definition fuel (s : State) : nat :=
  Run_fuel (length (usernames (checker s))) (loc s) + total_weight (pool s).

Definition idle_env : Env := mkEnv None (DoErr "timeout") true.

(** ** Schedules used as examples *)

(** The state a schedule leads to (the starting state when the schedule
    asks a blocked goroutine to move). *)
Definition state_after (acts : list Action) (uc : UsernameChecker) : State :=
  match exec acts (start uc) with
  | Some s => s
  | None => start uc
  end.

(** A run on two handles with one slot. *)
Definition demo_uc : UsernameChecker :=
  NewUsernameChecker (fun _ => None) ["@alice"; "@bob"] 1 [] "out.txt".

Definition env_free : Env :=
  mkEnv None (DoOk "https://fragment.com/?query=alice" (BadHTML "eof")) true.

Definition env_taken : Env :=
  mkEnv None (DoOk "https://fragment.com/username/bob" (Doc [" Taken "])) false.

(** [alice] is dispatched and has logged its result, not yet counted;
    [Run] waits for the slot to dispatch [bob]. *)
Definition demo_mid : list Action :=
  [ARun; ARun; ARun; ARun; ARun; ARun;
   AGo 0 env_free; AGo 0 env_free; AGo 0 env_free].

(** The whole run. *)
Definition demo_all : list Action :=
  demo_mid ++
  [AGo 0 env_free; AGo 0 env_free; ARun; ARun; AGo 0 env_free; ARun; ARun;
   AGo 1 env_taken; AGo 1 env_taken; AGo 1 env_taken; AGo 1 env_taken;
   AGo 1 env_taken; AGo 1 env_taken; ARun].

(** ** One goroutine against a given outside world *)

(** The answers of the outside world: [http.NewRequest] on a URL (an
    error or none) and [client.Do] on the request for a URL. *)
Record World : Type := mkWorld {
  http_NewRequest : string -> option string;
  client_Do : string -> DoResult
}.

Inductive Event : Type :=
| EvNewRequest (url : string)
| EvDo (url : string)
| EvLogResult (line : string)
| EvIncrement
| EvRecvSem
| EvWgDone.

(** The operations a program performs, in order. *)
Fixpoint events (w : World) (p : Prog) : list Event :=
  match p with
  | PDone => []
  | PNewRequest url f => EvNewRequest url :: events w (f (http_NewRequest w url))
  | PDo url f => EvDo url :: events w (f (client_Do w url))
  | PLogResult line k => EvLogResult line :: events w k
  | PIncrement k => EvIncrement :: events w k
  | PRecvSem k => EvRecvSem :: events w k
  | PWgDone k => EvWgDone :: events w k
  end.

(** The lines handed to [logResult], the number of calls of
    [incrementProcessed] and of [client.Do]. *)
Fixpoint logged (evs : list Event) : list string :=
  match evs with
  | [] => []
  | EvLogResult line :: evs' => line :: logged evs'
  | _ :: evs' => logged evs'
  end.



(** ** The classification as the specification words it *)

Inductive Outcome : Type :=
| Free
| Sold
| Available
| Taken
| UnknownStatus (raw : string)
| RequestError (cause : string)
| ParseError (cause : string)
| NotFound.

(** Section 4.2: Free when the final URL is the query URL of the handle,
    decided before the body is looked at; else ParseError when the body
    does not parse; else NotFound when the status element is absent;
    else its text lower-cased and trimmed, one of the three known values
    or UnknownStatus of that text. *)
Definition spec_classify (handle finalURL : string) (body : Body) : Outcome :=
  if String.eqb finalURL (queryURL handle) then Free
  else
    match body with
    | BadHTML cause => ParseError cause
    | Doc [] => NotFound
    | Doc sel =>
        let text := TrimSpace (ToLower (Selection_Text sel)) in
        if String.eqb text "sold" then Sold
        else if String.eqb text "available" then Available
        else if String.eqb text "taken" then Taken
        else UnknownStatus text
    end.

(** The status column of a reported line. *)
Definition display (o : Outcome) : string :=
  match o with
  | Free => "Free"
  | Sold => "Sold"
  | Available => "Available"
  | Taken => "Taken"
  | UnknownStatus raw => "Unknown status (" +:+ raw +:+ ")"
  | RequestError cause => "Error: " +:+ cause
  | ParseError cause => "Error parsing HTML: " +:+ cause
  | NotFound => "Status not found"
  end.

Definition ResultLine (handle : string) (o : Outcome) : string :=
  "@" +:+ handle +:+ " | " +:+ display o +:+ nl.



(** A stand-in for [url.Parse] that knows one of its errors. *)
Definition url_Parse_scheme (s : string) : option string :=
  if String.prefix ":" s then Some "missing protocol scheme" else None.

(** The number of goroutines [Run] can still reach once the stop channel
    is closed: the one being dispatched, if the select was already
    passed, and none after it. *)
Definition dispatch_limit (s : State) : nat :=
  match loc s with
  | LSend i | LAdd i | LGo i => S i
  | _ => length (pool s)
  end.

(** Two handles, two slots; the signal arrives while the request for the
    first handle is in flight and [Run] is back at the select. *)
Definition stop_uc : UsernameChecker :=
  NewUsernameChecker (fun _ => None) ["@alice"; "@bob"] 2 [] "out.txt".

Definition stop_sched : list Action :=
  [ARun; ARun; ARun; ARun; ARun; AGo 0 env_free; ASignal; ARun].

(** ** What a run may contain *)

(** Every line the program will hand to [logResult] is a report line of
    the handle [h], whatever the outside world answers. *)
Fixpoint Reports (h : string) (p : Prog) : Prop :=
  match p with
  | PDone => True
  | PNewRequest _ f => forall r, Reports h (f r)
  | PDo _ f => forall r, Reports h (f r)
  | PLogResult line k => (exists o, line = ResultLine h o) /\ Reports h k
  | PIncrement k => Reports h k
  | PRecvSem k => Reports h k
  | PWgDone k => Reports h k
  end.


(** The schedule has no stop signal. *)
Definition no_signal (a : Action) : Prop := is_signal a = false.

(** Any action. *)
Definition any_action (a : Action) : Prop := True.

(** What the started goroutines and the recorded lines are, against the
    input list: goroutine [k] works on handle [k], and every line is a
    report line of an input handle. *)
Definition pool_follows_input (us : list string) (s : State) : Prop :=
  (forall k p, pool s !! k = Some p ->
     exists u, us !! k = Some u /\ Reports (normalize u) p) /\
  Forall (fun line => exists u o, In u us /\ line = ResultLine (normalize u) o)
         (results (checker s)).

(** ** Reading the input file *)

(** How a read of the file ends once its bytes are used up: [io.EOF],
    or another error. *)
Inductive ReadErr : Type :=
| EOF
| ReadFailure (err : string).

(** What [os.Open] gives: an error, or a file with its bytes and the way
    reading it ends. *)
Inductive OpenResult : Type :=
| OpenFailed (err : string)
| Opened (content : string) (final : ReadErr).

(** [reader.ReadString('\n')] on the bytes not yet read: the bytes up to
    and including the first line feed and the bytes left, or, without a
    line feed, all the bytes and nothing left (the call then returns the
    final error of the file). *)
Fixpoint ReadString_nl (pending : string) : string * option string :=
  match pending with
  | EmptyString => (EmptyString, None)
  | String c rest =>
      if Ascii.eqb c (ascii_of_nat 10) then (String c EmptyString, Some rest)
      else
        let (line, left) := ReadString_nl rest in
        (String c line, left)
  end.

Definition inspect {A : Type} (a : A) : {b : A | a = b} := exist _ a eq_refl.

Lemma ReadString_nl_shorter pending line rest :
  ReadString_nl pending = (line, Some rest) ->
  String.length rest < String.length pending.
Proof.
  revert line rest. induction pending as [|c p IH]; intros line rest H; simpl in H.
  - discriminate.
  - destruct (Ascii.eqb c (ascii_of_nat 10)).
    + injection H as _ <-. simpl. lia.
    + destruct (ReadString_nl p) as [l r] eqn:E. injection H as _ ->.
      specialize (IH l rest eq_refl). simpl. lia.
Qed.

(** The loop of [readLines] (lines 392-404) on the bytes not yet read,
    the final error of the file and the lines collected so far. *)
Equations readLines_loop (pending : string) (final : ReadErr) (lines : list string)
  : list string * option string by wf (String.length pending) lt :=
  readLines_loop pending final lines with inspect (ReadString_nl pending) := {
    | exist _ (line, Some rest) Hread =>
        let line := TrimSpace line in
        let lines := if String.eqb line "" then lines else lines ++ [line] in
        readLines_loop rest final lines
    | exist _ (line, None) Hread =>
        let line := TrimSpace line in
        let lines := if String.eqb line "" then lines else lines ++ [line] in
        match final with
        | EOF => (lines, None)
        | ReadFailure err => (lines, Some err)
        end
  }.
Next Obligation.
  eapply ReadString_nl_shorter. eassumption.
Qed.

(** [readLines] (lines 383-406): the lines and the error returned. *)
Definition readLines (f : OpenResult) : list string * option string :=
  match f with
  | OpenFailed err => ([], Some err)
  | Opened content final => readLines_loop content final []
  end.

(** Does the string hold a line feed. *)
Fixpoint has_nl (s : string) : bool :=
  match s with
  | EmptyString => false
  | String c s' => Ascii.eqb c (ascii_of_nat 10) || has_nl s'
  end.


(** The lines, each followed by a line feed. *)
Fixpoint unlines (ls : list string) : string :=
  match ls with
  | [] => EmptyString
  | l :: ls' => l +:+ nl +:+ unlines ls'
  end.


(** The pieces of a string between its line feeds. *)
Fixpoint split_nl (s : string) : list string :=
  match s with
  | EmptyString => [EmptyString]
  | String c s' =>
      if Ascii.eqb c (ascii_of_nat 10) then EmptyString :: split_nl s'
      else
        match split_nl s' with
        | piece :: pieces => String c piece :: pieces
        | [] => [String c EmptyString]
        end
  end.

Definition not_blank (l : string) : bool := negb (String.eqb l "").


(** ** The logger *)

(** The log levels (lines 32-38). *)
Definition DEBUG : Z := 0.
Definition INFO : Z := 1.
Definition WARNING : Z := 2.
Definition ERROR : Z := 3.
Definition CRITICAL : Z := 4.

Inductive Color : Type := Cyan | Green | Yellow | Red | Magenta.

(** One line on standard output, in a colour or plain. *)
Record ConsoleLine : Type := mkConsoleLine {
  line_color : option Color;
  line_text : string
}.

(** What the program sees of the operating system: the files by path,
    the paths that cannot be opened (with the error of the attempt), the
    lines printed on standard output, and the clock: [clock n] is the
    RFC 3339 text of the [n]-th reading of the time, [ticks] the number
    of readings made. *)
Record OS : Type := mkOS {
  files : string -> option string;
  open_error : string -> option string;
  console : list ConsoleLine;
  clock : nat -> string;
  ticks : nat
}.

Definition set_file (os : OS) (path content : string) : OS :=
  mkOS (fun p => if String.eqb p path then Some content else files os p)
       (open_error os) (console os) (clock os) (ticks os).

Definition print_line (os : OS) (l : ConsoleLine) : OS :=
  mkOS (files os) (open_error os) (console os ++ [l]) (clock os) (ticks os).

(** [os.OpenFile(path, O_CREATE|O_WRONLY|O_APPEND, 0644)]: the error, or
    the system with the file created when it did not exist. *)
Definition OpenFile_append (path : string) (os : OS) : string + OS :=
  match open_error os path with
  | Some err => inl err
  | None =>
      match files os path with
      | Some _ => inr os
      | None => inr (set_file os path "")
      end
  end.

(** [os.OpenFile(path, O_CREATE|O_WRONLY|O_TRUNC, 0644)]: the error, or
    the system with the file emptied. *)
Definition OpenFile_trunc (path : string) (os : OS) : string + OS :=
  match open_error os path with
  | Some err => inl err
  | None => inr (set_file os path "")
  end.

(** [os.Open(path)] of a regular file. *)
Definition Open (path : string) (os : OS) : OpenResult :=
  match open_error os path with
  | Some err => OpenFailed err
  | None =>
      match files os path with
      | Some content => Opened content EOF
      | None => OpenFailed ("open " +:+ path +:+ ": no such file or directory")
      end
  end.

(** A write through a descriptor opened with [O_APPEND]. *)
Definition append_file (path text : string) (os : OS) : OS :=
  set_file os path (match files os path with Some c => c | None => "" end +:+ text).

(** [time.Now().Format(time.RFC3339)]. *)
Definition Now (os : OS) : string * OS :=
  (clock os (ticks os),
   mkOS (files os) (open_error os) (console os) (clock os) (S (ticks os))).

Fixpoint has_slash (s : string) : bool :=
  match s with
  | EmptyString => false
  | String c s' => Ascii.eqb c "/" || has_slash s'
  end.

Fixpoint strip_trailing_slashes (s : string) : string :=
  match s with
  | EmptyString => EmptyString
  | String c s' =>
      match strip_trailing_slashes s' with
      | EmptyString => if Ascii.eqb c "/" then EmptyString else String c EmptyString
      | t => String c t
      end
  end.

Fixpoint last_element (s : string) : string :=
  match s with
  | EmptyString => EmptyString
  | String c s' =>
      if has_slash s' then last_element s'
      else if Ascii.eqb c "/" then s' else s
  end.

(** [filepath.Base] with [/] as the separator. *)
Definition Base (path : string) : string :=
  if String.eqb path "" then "."
  else
    let path := last_element (strip_trailing_slashes path) in
    if String.eqb path "" then "/" else path.

(** The verb [%d] on an [int]. *)
Definition itoa (n : Z) : string := NilZero.string_of_int (Z.to_int n).

(** [Logger] (lines 41-46): the mutex, the path of the open log file,
    the threshold and the colour switch. *)
Record Logger : Type := mkLogger {
  mu : bool;
  logFile : string;
  logLevel : Z;
  useColor : bool
}.

(** [NewLogger] (lines 48-58). *)
Definition NewLogger (filePath : string) (level : Z) (useColor : bool) (os : OS)
  : (string + Logger) * OS :=
  match OpenFile_append filePath os with
  | inl err => (inl err, os)
  | inr os' => (inr (mkLogger false filePath level useColor), os')
  end.

(** [fmt.Sprintf(LogFormat, ...)] with [LogFormat] of line 28. *)
Definition format_log (now levelStr msg file : string) (line : Z) : string :=
  now +:+ " - " +:+ levelStr +:+ " - " +:+ msg +:+ " (" +:+ Base file +:+ ":"
      +:+ itoa line +:+ ")".

(** The colour of lines 74-87; [None] is the plain [fmt.Println]. *)
Definition level_color (level : Z) : option Color :=
  if (level =? DEBUG)%Z then Some Cyan
  else if (level =? INFO)%Z then Some Green
  else if (level =? WARNING)%Z then Some Yellow
  else if (level =? ERROR)%Z then Some Red
  else if (level =? CRITICAL)%Z then Some Magenta
  else None.

(** [logf] (lines 60-91). [None]: the mutex is held, the caller waits. *)
Definition logf (level : Z) (levelStr msg file : string) (line : Z)
    (l : Logger) (os : OS) : option OS :=
  if (level <? logLevel l)%Z then Some os
  else if mu l then None
  else
    let (now, os) := Now os in
    let formatted := format_log now levelStr msg file line in
    let os := append_file (logFile l) (formatted +:+ nl) os in
    if useColor l
    then Some (print_line os (mkConsoleLine (level_color level) formatted))
    else Some (print_line os (mkConsoleLine None formatted)).

(** The five methods (lines 93-111). *)
Definition Logger_Debug (l : Logger) (msg file : string) (line : Z) :=
  logf DEBUG "DEBUG" msg file line l.
Definition Logger_Info (l : Logger) (msg file : string) (line : Z) :=
  logf INFO "INFO" msg file line l.
Definition Logger_Warning (l : Logger) (msg file : string) (line : Z) :=
  logf WARNING "WARNING" msg file line l.
Definition Logger_Error (l : Logger) (msg file : string) (line : Z) :=
  logf ERROR "ERROR" msg file line l.
Definition Logger_Critical (l : Logger) (msg file : string) (line : Z) :=
  logf CRITICAL "CRITICAL" msg file line l.

(** One call of [logf] and a sequence of calls on the same logger. *)
Record LogCall : Type := mkLogCall {
  call_level : Z;
  call_levelStr : string;
  call_msg : string;
  call_file : string;
  call_line : Z
}.

Fixpoint logf_all (calls : list LogCall) (l : Logger) (os : OS) : option OS :=
  match calls with
  | [] => Some os
  | c :: calls' =>
      match logf (call_level c) (call_levelStr c) (call_msg c) (call_file c)
                 (call_line c) l os with
      | None => None
      | Some os' => logf_all calls' l os'
      end
  end.

(** The calls that pass the threshold, and the lines they give when the
    first of them reads the clock at tick [t]. *)
Definition passes (l : Logger) (c : LogCall) : bool :=
  negb (call_level c <? logLevel l)%Z.

Fixpoint log_lines (clock : nat -> string) (t : nat) (calls : list LogCall)
  : list string :=
  match calls with
  | [] => []
  | c :: calls' =>
      format_log (clock t) (call_levelStr c) (call_msg c) (call_file c) (call_line c)
      :: log_lines clock (S t) calls'
  end.

Definition file_content (os : OS) (path : string) : string :=
  match files os path with Some c => c | None => "" end.

(** ** [main] up to the call of [Run] *)

(** [strings.Split(s, sep)] for a separator of one byte. *)
Fixpoint SplitByte (sep : ascii) (s : string) : list string :=
  match s with
  | EmptyString => [EmptyString]
  | String c s' =>
      if Ascii.eqb c sep then EmptyString :: SplitByte sep s'
      else
        match SplitByte sep s' with
        | piece :: pieces => String c piece :: pieces
        | [] => [String c EmptyString]
        end
  end.

(** The verb [%v] on a slice of strings. *)
Definition fmt_strings (l : list string) : string :=
  "[" +:+ String.concat " " l +:+ "]".

(** The command-line flags (lines 291-297). *)
Record Flags : Type := mkFlags {
  inputPath : string;
  outputPath : string;
  threadsFlag : Z;
  proxiesFlag : string;
  logPath : string;
  noColor : bool
}.

(** How the start of [main] ends: the process exits with a status, or
    the checker is built and [Run] is called next. *)
Inductive Setup : Type :=
| Exit (status : Z)
| Ready (logger : Logger) (checker : UsernameChecker).

(** [main], lines 289-337. [None]: waiting for the logger's mutex.
    Output on standard error (the usage text, [log.Fatalf]) is not
    kept. *)
Definition main_setup (url_Parse : string -> option string) (fl : Flags) (os : OS)
  : option (Setup * OS) :=
  if String.eqb (inputPath fl) "" || String.eqb (outputPath fl) ""
  then
    Some (Exit 1,
          print_line os (mkConsoleLine None "Input and output file paths are required."))
  else
    match NewLogger (logPath fl) DEBUG (negb (noColor fl)) os with
    | (inl err, os) => Some (Exit 1, os)
    | (inr logger, os) =>
        let proxyList :=
          if String.eqb (proxiesFlag fl) "" then []
          else SplitByte "," (proxiesFlag fl) in
        match
          (if String.eqb (proxiesFlag fl) "" then Some os
           else Logger_Info logger ("Using proxies: " +:+ fmt_strings proxyList)
                            "main.go" 0 os)
        with
        | None => None
        | Some os =>
            match OpenFile_trunc (outputPath fl) os with
            | inl err =>
                match Logger_Critical logger
                        ("Failed to clear output file " +:+ outputPath fl +:+ ": " +:+ err)
                        "main.go" 0 os with
                | None => None
                | Some os => Some (Exit 1, os)
                end
            | inr os =>
                match readLines (Open (inputPath fl) os) with
                | (_, Some err) =>
                    match Logger_Critical logger
                            ("Failed to read input file " +:+ inputPath fl +:+ ": " +:+ err)
                            "main.go" 0 os with
                    | None => None
                    | Some os => Some (Exit 1, os)
                    end
                | (usernames, None) =>
                    match Logger_Info logger
                            ("Loaded " +:+ itoa (Z.of_nat (length usernames))
                               +:+ " usernames from " +:+ inputPath fl +:+ ".")
                            "main.go" 0 os with
                    | None => None
                    | Some os =>
                        Some (Ready logger
                                (NewUsernameChecker url_Parse usernames (threadsFlag fl)
                                   proxyList (outputPath fl)),
                              os)
                    end
                end
            end
        end
    end.

(** A system with the three files of the example and a clock. *)
Definition demo_os : OS :=
  mkOS (fun p => if String.eqb p "in.txt"
                 then Some ("@alice" +:+ nl +:+ nl +:+ "  bob " +:+ nl)
                 else None)
       (fun _ => None) [] (fun _ => "2024-01-01T00:00:00Z") 0.


Definition same_file_flags : Flags :=
  mkFlags "in.txt" "in.txt" 10 "" "checker.log" false.

(** Does the string hold the byte. *)
Fixpoint has_byte (b : ascii) (s : string) : bool :=
  match s with
  | EmptyString => false
  | String c s' => Ascii.eqb c b || has_byte b s'
  end.

Definition missing_input_flags : Flags :=
  mkFlags "absent.txt" "out.txt" 10 "" "checker.log" false.

(** * Properties *)

(** ** The library functions on examples *)

Example TrimSpace_ex : TrimSpace ("  Taken" +:+ nl +:+ " ") = "Taken".
Proof. reflexivity. Qed.

Example TrimPrefix_ex : TrimPrefix "@alice" "@" = "alice".
Proof. reflexivity. Qed.

Example Title_ex : Title "available" = "Available".
Proof. reflexivity. Qed.

(** Half of the handles processed: 50 percent. *)
Example GetProgress_half :
  GetProgress (mkChecker ["a"; "b"] 1 [] "out" (mkClient (10 * Second) None)
                 false ["@a | Free"] 1%Z false false 1)
  = Some (mkChecker ["a"; "b"] 1 [] "out" (mkClient (10 * Second) None)
                 false ["@a | Free"] 1%Z false false 1,
          (1%Z, 2%Z, float64 50)).
Proof. vm_compute. reflexivity. Qed.

(** ** Facts on strings *)

Lemma append_assoc (a b c : string) : (a +:+ b) +:+ c = a +:+ (b +:+ c).
Proof. induction a as [|x a IH]; simpl; [reflexivity | rewrite IH; reflexivity]. Qed.











(** ** Counting goroutines *)

Lemma count_app f l1 l2 : count f (l1 ++ l2) = count f l1 + count f l2.
Proof. induction l1 as [|p l1 IH]; simpl; [reflexivity | rewrite IH; lia]. Qed.

Lemma count_le_length f l : count f l <= length l.
Proof. induction l as [|p l IH]; simpl; [lia | destruct (f p); simpl; lia]. Qed.

Lemma count_insert f (l : list Prog) k p q :
  l !! k = Some p ->
  count f (<[k := q]> l) + Nat.b2n (f p) = count f l + Nat.b2n (f q).
Proof.
  revert k. induction l as [|x l IH]; intros [|k] H; simpl in *; try discriminate.
  - injection H as ->. lia.
  - specialize (IH k H). lia.
Qed.

Lemma count_pos_lookup f (l : list Prog) :
  0 < count f l -> exists k p, l !! k = Some p /\ f p = true.
Proof.
  induction l as [|x l IH]; simpl; [lia|].
  destruct (f x) eqn:E; intros H.
  - exists 0, x. split; [reflexivity | assumption].
  - destruct (IH H) as (k & p & Hk & Hp). exists (S k), p. split; assumption.
Qed.

Lemma count_lookup_pos f (l : list Prog) k p :
  l !! k = Some p -> f p = true -> 0 < count f l.
Proof.
  revert k. induction l as [|x l IH]; intros [|k] H Hf; simpl in *; try discriminate.
  - injection H as ->. rewrite Hf. simpl. lia.
  - specialize (IH k H Hf). lia.
Qed.


Lemma count_imp f g (l : list Prog) :
  (forall p, f p = true -> g p = true) -> count f l <= count g l.
Proof.
  intros H. induction l as [|x l IH]; simpl; [lia|].
  specialize (H x). destruct (f x), (g x); simpl; try lia.
Qed.

Lemma count_joined_counted (l : list Prog) :
  count in_wg l = 0 -> count counted l = length l.
Proof.
  induction l as [|p l IH]; simpl; [reflexivity|].
  unfold in_wg at 1, counted at 1.
  destruct (weight p) as [|w]; simpl; [intros H; rewrite IH; lia | lia].
Qed.

Lemma total_weight_app l1 l2 :
  total_weight (l1 ++ l2) = total_weight l1 + total_weight l2.
Proof. induction l1 as [|p l1 IH]; simpl; [reflexivity | rewrite IH; lia]. Qed.

Lemma total_weight_insert (l : list Prog) k p q :
  l !! k = Some p ->
  total_weight (<[k := q]> l) + weight p = total_weight l + weight q.
Proof.
  revert k. induction l as [|x l IH]; intros [|k] H; simpl in *; try discriminate.
  - injection H as ->. lia.
  - specialize (IH k H). lia.
Qed.

(** ** Goroutine programs are well formed *)

Lemma Forall_WF_insert (l : list Prog) k q :
  Forall WF l -> WF q -> Forall WF (<[k := q]> l).
Proof.
  intros Hl Hq. revert k. induction Hl as [|x l Hx Hl IH]; intros [|k]; simpl;
    constructor; auto.
Qed.

Lemma Forall_WF_lookup (l : list Prog) k p :
  Forall WF l -> l !! k = Some p -> WF p.
Proof.
  intros Hl. revert k. induction Hl as [|x l Hx Hl IH]; intros [|k] H; simpl in *;
    try discriminate.
  - injection H as ->. assumption.
  - eauto.
Qed.

Lemma checkUsername_WF u ret :
  weight ret = 2 -> WF ret -> WF (checkUsername u ret).
Proof.
  intros Hw Hret. unfold checkUsername. simpl. intros [err|]; simpl.
  - split; [lia | repeat split; assumption].
  - split; [lia|]. intros [err | finalURL body]; simpl.
    + repeat split; assumption.
    + destruct (String.eqb _ _); simpl; [repeat split; assumption|].
      destruct body as [err | sel]; simpl; [repeat split; assumption|].
      destruct (0 <? _); simpl; repeat split; assumption.
Qed.

Lemma worker_WF u : WF (worker u).
Proof. apply checkUsername_WF; simpl; auto. Qed.

Create HintDb wf.
#[local] Hint Resolve worker_WF Forall_WF_insert Forall_WF_lookup : wf.




(** ** Steps and the fields they leave alone *)

Lemma int_wrap_small z : (0 <= z <= int_max)%Z -> int_wrap z = z.
Proof.
  unfold int_wrap, int_max. intros H.
  rewrite Z.mod_small; lia.
Qed.

Lemma lookup_length_lt (A : Type) (l : list A) i x : l !! i = Some x -> i < length l.
Proof. apply lookup_lt_Some. Qed.

Lemma lookup_none_length (A : Type) (l : list A) i : l !! i = None -> length l <= i.
Proof. apply lookup_ge_None. Qed.

Lemma Run_step_usernames s s' :
  Run_step s = Some s' -> usernames (checker s') = usernames (checker s).
Proof.
  unfold Run_step. intros H.
  destruct (loc s); simpl in H;
    repeat match type of H with
           | context [match ?x with _ => _ end] => destruct x
           end;
    try discriminate; injection H as <-; reflexivity.
Qed.

Lemma Go_step_usernames k e s s' :
  Go_step k e s = Some s' -> usernames (checker s') = usernames (checker s).
Proof.
  unfold Go_step. intros H.
  destruct (pool s !! k) as [[|url f|url f|line q|q|q|q]|]; try discriminate.
  - injection H as <-. reflexivity.
  - injection H as <-. reflexivity.
  - unfold logResult, Lock_resultsMu in H. simpl in H.
    destruct (resultsMu (checker s)); [discriminate|].
    destruct (appendToFile _ _ _). injection H as <-. reflexivity.
  - unfold incrementProcessed, Lock_processedMu in H.
    destruct (processedMu (checker s)); [discriminate|].
    injection H as <-. reflexivity.
  - destruct (sem s); [discriminate|]. injection H as <-. reflexivity.
  - destruct (wg (checker s)); [discriminate|]. injection H as <-. reflexivity.
Qed.

Lemma Run_step_processed s s' :
  Run_step s = Some s' -> processed (checker s') = processed (checker s).
Proof.
  unfold Run_step. intros H.
  destruct (loc s); simpl in H;
    repeat match type of H with
           | context [match ?x with _ => _ end] => destruct x
           end;
    try discriminate; injection H as <-; reflexivity.
Qed.

Lemma Go_step_loc k e s s' : Go_step k e s = Some s' -> loc s' = loc s.
Proof.
  unfold Go_step. intros H.
  destruct (pool s !! k) as [[|url f|url f|line q|q|q|q]|]; try discriminate.
  - injection H as <-. reflexivity.
  - injection H as <-. reflexivity.
  - destruct (logResult _ _ _) as [[uc' out']|]; [|discriminate].
    injection H as <-. reflexivity.
  - destruct (incrementProcessed _) as [uc'|]; [|discriminate].
    injection H as <-. reflexivity.
  - destruct (sem s); [discriminate|]. injection H as <-. reflexivity.
  - destruct (wg (checker s)); [discriminate|]. injection H as <-. reflexivity.
Qed.

Lemma NewUsernameChecker_Fresh url_Parse us n px out :
  Fresh (NewUsernameChecker url_Parse us n px out).
Proof. repeat split. Qed.

Lemma set_processedMu_release uc :
  processedMu uc = false -> set_processedMu (set_processedMu uc true) false = uc.
Proof. destruct uc; simpl; intros ->; reflexivity. Qed.

Lemma GetProgress_free uc :
  processedMu uc = false ->
  GetProgress uc =
  Some (uc, (processed uc, Z.of_nat (length (usernames uc)),
             f64_mul (f64_div (float64 (processed uc))
                              (float64 (Z.of_nat (length (usernames uc)))))
                     (float64 100))).
Proof.
  intros H. unfold GetProgress, Lock_processedMu. rewrite H.
  cbv zeta. rewrite (set_processedMu_release _ H). reflexivity.
Qed.


(** ** Schedules and reachable states *)

Lemma Reach_start uc : Reach uc (start uc).
Proof. exists []. reflexivity. Qed.

Lemma exec_app acts1 : forall acts2 s s1,
  exec acts1 s = Some s1 -> exec (acts1 ++ acts2) s = exec acts2 s1.
Proof.
  induction acts1 as [|a acts1 IH]; intros acts2 s s1 H; simpl in *.
  - injection H as ->. reflexivity.
  - destruct (step a s) as [s2|]; [|discriminate]. apply IH. assumption.
Qed.

Lemma Reach_step uc a s s' : Reach uc s -> step a s = Some s' -> Reach uc s'.
Proof.
  intros [acts H] Hs. exists (acts ++ [a]).
  rewrite (exec_app _ _ _ _ H). simpl. rewrite Hs. reflexivity.
Qed.

Lemma Reach_state_after acts uc : Reach uc (state_after acts uc).
Proof.
  unfold state_after. destruct (exec acts (start uc)) as [s|] eqn:E.
  - exists acts. assumption.
  - apply Reach_start.
Qed.

Example demo_all_results :
  results (checker (state_after demo_all demo_uc))
  = ["@alice | Free" +:+ nl; "@bob | Taken" +:+ nl]
  /\ processed (checker (state_after demo_all demo_uc)) = 2%Z
  /\ loc (state_after demo_all demo_uc) = LReturned
  /\ output (state_after demo_all demo_uc) = ["@alice | Free" +:+ nl].
Proof. vm_compute. repeat split. Qed.

Example demo_mid_state :
  results (checker (state_after demo_mid demo_uc)) = ["@alice | Free" +:+ nl]
  /\ processed (checker (state_after demo_mid demo_uc)) = 0%Z
  /\ loc (state_after demo_mid demo_uc) = LSend 1.
Proof. vm_compute. repeat split. Qed.


(** ** The invariant along a run *)

Section RunInvariant.

(** The checker [Run] is called on; a slice has at most [int_max]
    elements. *)
Variable uc0 : UsernameChecker.
Hypothesis Hmax : (Z.of_nat (length (usernames uc0)) <= int_max)%Z.

Lemma Inv_start : Fresh uc0 -> Inv uc0 (start uc0).
Proof.
  intros (H1 & H2 & H3 & H4 & H5).
  constructor; simpl; auto; try congruence; try lia.
  rewrite H2. reflexivity.
Qed.

Lemma Inv_Run_step s s' :
  Inv uc0 s -> Run_step s = Some s' -> Inv uc0 s'.
Proof.
  intros [Hu Ht Hrm Hpm Hwf Hloc Hcap Hres Hproc Hsem Hle Hwg Hj Hst Hpa] H.
  unfold Run_step in H. destruct (loc s) eqn:El; simpl in *.
  - (* LStart *)
    destruct (threads (checker s) <? 0)%Z eqn:E; injection H as <-;
      constructor; simpl; auto; try lia; try discriminate.
  - (* LSelect *)
    destruct (usernames (checker s) !! i) eqn:E.
    + apply lookup_length_lt in E. rewrite Hu in E.
      destruct (stopChan (checker s)) eqn:Es; injection H as <-;
        constructor; simpl; auto; try lia; try discriminate.
    + apply lookup_none_length in E. rewrite Hu in E.
      injection H as <-; constructor; simpl; auto; try lia; try discriminate.
  - (* LSend *)
    destruct (sem s <? sem_cap s) eqn:E; [|discriminate].
    apply Nat.ltb_lt in E.
    injection H as <-; constructor; simpl; auto; try lia; try discriminate.
  - (* LAdd *)
    injection H as <-; constructor; simpl; auto; try lia; try discriminate.
  - (* LGo *)
    destruct (usernames (checker s) !! i) eqn:E; [|discriminate].
    injection H as <-; constructor; simpl; auto; try discriminate;
      rewrite ?length_app, ?count_app; simpl; try lia.
    apply Forall_app. split; [assumption|]. constructor; [apply worker_WF | constructor].
  - (* LWait *)
    destruct (wg (checker s) =? 0) eqn:E; [|discriminate].
    apply Nat.eqb_eq in E.
    injection H as <-; constructor; simpl; auto; try lia; try discriminate.
  - discriminate.
  - discriminate.
  - discriminate.
Qed.

(** The four counts before and after goroutine [k] moves from [p] to [q]. *)
Ltac count_facts Hk q :=
  pose proof (count_insert recorded _ _ _ q Hk);
  pose proof (count_insert counted _ _ _ q Hk);
  pose proof (count_insert holds_slot _ _ _ q Hk);
  pose proof (count_insert in_wg _ _ _ q Hk).

Ltac inv_fields Hw :=
  constructor; simpl; auto with wf;
  rewrite ?length_insert, ?length_app; simpl; auto;
  unfold recorded, counted, holds_slot, in_wg in *; simpl in *;
  rewrite ?Hw in *; simpl in *; try lia;
  try (match goal with
       | Hx : ?A -> _ |- ?A -> _ =>
           let HL := fresh in intro HL; specialize (Hx HL); auto; lia
       end).

Lemma Inv_Go_step k e s s' :
  Inv uc0 s -> Go_step k e s = Some s' -> Inv uc0 s'.
Proof.
  intros [Hu Ht Hrm Hpm Hwf Hloc Hcap Hres Hproc Hsem Hle Hwg Hj Hst Hpa] H.
  unfold Go_step in H.
  destruct (pool s !! k) as [p|] eqn:Hk; [|discriminate].
  pose proof (Forall_WF_lookup _ _ _ Hwf Hk) as Hp.
  assert (Hlen : length (pool s) <= length (usernames uc0)).
  { destruct (loc s); simpl in Hloc; lia. }
  destruct p as [|url f|url f|line q|q|q|q]; simpl in Hp.
  - discriminate.
  - (* http.NewRequest *)
    injection H as <-. destruct (Hp (new_request e)) as [Hw Hq].
    count_facts Hk (f (new_request e)).
    assert (Hw' : weight (f (new_request e)) = 4 \/ weight (f (new_request e)) = 5) by lia.
    clear Hw. destruct Hw' as [Hw|Hw]; inv_fields Hw.
  - (* client.Do *)
    injection H as <-. destruct (Hp (do_result e)) as [Hw Hq].
    count_facts Hk (f (do_result e)). inv_fields Hw.
  - (* logResult *)
    destruct Hp as [Hw Hq].
    unfold logResult, Lock_resultsMu in H. simpl in H. rewrite Hrm in H.
    destruct (appendToFile (write_ok e) (output s) line) as [file err].
    injection H as <-.
    count_facts Hk q. inv_fields Hw.
  - (* incrementProcessed *)
    destruct Hp as [Hw Hq].
    unfold incrementProcessed, Lock_processedMu in H. rewrite Hpm in H.
    injection H as <-.
    count_facts Hk q.
    pose proof (count_le_length counted (<[k:=q]> (pool s))) as Hc.
    rewrite length_insert in Hc.
    inv_fields Hw.
    rewrite int_wrap_small; lia.
  - (* <-sem *)
    destruct Hp as [Hw Hq].
    destruct (sem s) as [|n] eqn:Es; [discriminate|].
    injection H as <-.
    count_facts Hk q. inv_fields Hw.
  - (* wg.Done *)
    destruct Hp as [Hw Hq].
    destruct (wg (checker s)) as [|n] eqn:Es; [discriminate|].
    injection H as <-.
    count_facts Hk q. inv_fields Hw.
Qed.

Lemma Inv_Signal_step s s' :
  Inv uc0 s -> Signal_step s = Some s' -> Inv uc0 s'.
Proof.
  intros [Hu Ht Hrm Hpm Hwf Hloc Hcap Hres Hproc Hsem Hle Hwg Hj Hst Hpa] H.
  unfold Signal_step in H. destruct (stopChan (checker s)); [discriminate|].
  injection H as <-. constructor; simpl; auto.
Qed.

Lemma Inv_step a s s' :
  Inv uc0 s -> step a s = Some s' -> Inv uc0 s'.
Proof.
  intros HI H. destruct a as [|k e|]; simpl in H.
  - eapply Inv_Run_step; eassumption.
  - eapply Inv_Go_step; eassumption.
  - eapply Inv_Signal_step; eassumption.
Qed.

Lemma Inv_exec acts : forall s s',
  Inv uc0 s -> exec acts s = Some s' -> Inv uc0 s'.
Proof.
  induction acts as [|a acts IH]; intros s s' HI H; simpl in H.
  - injection H as <-. assumption.
  - destruct (step a s) as [s1|] eqn:E; [|discriminate].
    eapply IH; [| eassumption].
    eapply Inv_step; eassumption.
Qed.

Lemma Inv_Reach s : Fresh uc0 -> Reach uc0 s -> Inv uc0 s.
Proof.
  intros HF [acts H]. eapply Inv_exec; [| eassumption].
  apply Inv_start; assumption.
Qed.

Lemma Run_step_fuel s s' :
  Inv uc0 s -> Run_step s = Some s' -> fuel s' < fuel s.
Proof.
  intros HI H. pose proof (Run_step_usernames _ _ H) as Hus.
  destruct HI as [Hu Ht Hrm Hpm Hwf Hloc Hcap Hres Hproc Hsem Hle Hwg Hj Hst Hpa].
  unfold fuel. rewrite Hus, Hu. clear Hus.
  unfold Run_step in H. destruct (loc s) eqn:El; simpl in *.
  - destruct (threads (checker s) <? 0)%Z; injection H as <-; simpl; lia.
  - destruct (usernames (checker s) !! i) eqn:E.
    + destruct (stopChan (checker s)); injection H as <-; simpl; lia.
    + injection H as <-; simpl; lia.
  - destruct (sem s <? sem_cap s); [|discriminate]. injection H as <-; simpl; lia.
  - injection H as <-; simpl; lia.
  - destruct (usernames (checker s) !! i); [|discriminate].
    injection H as <-; simpl. rewrite total_weight_app. simpl. lia.
  - destruct (wg (checker s) =? 0); [|discriminate]. injection H as <-; simpl; lia.
  - discriminate.
  - discriminate.
  - discriminate.
Qed.

Lemma Go_step_fuel k e s s' :
  Inv uc0 s -> Go_step k e s = Some s' -> fuel s' < fuel s.
Proof.
  intros HI H. pose proof (Go_step_usernames _ _ _ _ H) as Hus.
  destruct HI as [Hu Ht Hrm Hpm Hwf Hloc Hcap Hres Hproc Hsem Hle Hwg Hj Hst Hpa].
  unfold fuel. rewrite Hus. clear Hus.
  unfold Go_step in H.
  destruct (pool s !! k) as [p|] eqn:Hk; [|discriminate].
  pose proof (Forall_WF_lookup _ _ _ Hwf Hk) as Hp.
  destruct p as [|url f|url f|line q|q|q|q]; simpl in Hp.
  - discriminate.
  - injection H as <-. destruct (Hp (new_request e)) as [Hw _].
    pose proof (total_weight_insert _ _ _ (f (new_request e)) Hk). simpl in *. lia.
  - injection H as <-. destruct (Hp (do_result e)) as [Hw _].
    pose proof (total_weight_insert _ _ _ (f (do_result e)) Hk). simpl in *. lia.
  - destruct Hp as [Hw _]. pose proof (total_weight_insert _ _ _ q Hk).
    destruct (logResult _ _ _) as [[uc' out']|]; [|discriminate].
    injection H as <-. simpl in *. lia.
  - destruct Hp as [Hw _]. pose proof (total_weight_insert _ _ _ q Hk).
    destruct (incrementProcessed _) as [uc'|]; [|discriminate].
    injection H as <-. simpl in *. lia.
  - destruct Hp as [Hw _]. pose proof (total_weight_insert _ _ _ q Hk).
    destruct (sem s); [discriminate|]. injection H as <-. simpl in *. lia.
  - destruct Hp as [Hw _]. pose proof (total_weight_insert _ _ _ q Hk).
    destruct (wg (checker s)); [discriminate|]. injection H as <-. simpl in *. lia.
Qed.

(** A goroutine that has not finished can take a step, whatever the
    outside world answers. *)
Lemma Go_step_enabled k e s p :
  Inv uc0 s -> pool s !! k = Some p -> 1 <= weight p ->
  exists s', Go_step k e s = Some s'.
Proof.
  intros [Hu Ht Hrm Hpm Hwf Hloc Hcap Hres Hproc Hsem Hle Hwg Hj Hst Hpa] Hk Hw.
  unfold Go_step. rewrite Hk.
  destruct p as [|url f|url f|line q|q|q|q]; simpl in Hw.
  - lia.
  - eauto.
  - eauto.
  - unfold logResult, Lock_resultsMu. simpl. rewrite Hrm.
    destruct (appendToFile _ _ _). eauto.
  - unfold incrementProcessed, Lock_processedMu. rewrite Hpm. eauto.
  - pose proof (count_lookup_pos holds_slot _ _ _ Hk eq_refl).
    destruct (sem s); [lia | eauto].
  - pose proof (count_lookup_pos in_wg _ _ _ Hk eq_refl).
    destruct (wg (checker s)); [lia | eauto].
Qed.

(** Without a stop signal and with at least one slot, some goroutine can
    always move until [Run] has returned. *)
Lemma progress s :
  Inv uc0 s -> (1 <= threads uc0)%Z -> returned s = false ->
  exists a s', is_signal a = false /\ step a s = Some s'.
Proof.
  intros HI Hn Hret.
  pose proof HI as [Hu Ht Hrm Hpm Hwf Hloc Hcap Hres Hproc Hsem Hle Hwg Hj Hst Hpa].
  unfold returned in Hret.
  destruct (loc s) eqn:El; simpl in *; try discriminate.
  - exists ARun. simpl. unfold Run_step. rewrite El.
    destruct (threads (checker s) <? 0)%Z; eauto.
  - exists ARun. simpl. unfold Run_step. rewrite El.
    destruct (usernames (checker s) !! i); [destruct (stopChan (checker s))|]; eauto.
  - destruct (sem s <? sem_cap s) eqn:E.
    + exists ARun. simpl. unfold Run_step. rewrite El, E. eauto.
    + apply Nat.ltb_ge in E.
      assert (Hc : 0 < count holds_slot (pool s)) by lia.
      destruct (count_pos_lookup _ _ Hc) as (k & p & Hk & Hp).
      unfold holds_slot in Hp. apply Nat.leb_le in Hp.
      destruct (Go_step_enabled k idle_env s p HI Hk) as [s' Hs']; [lia|].
      exists (AGo k idle_env), s'. split; [reflexivity | assumption].
  - exists ARun. simpl. unfold Run_step. rewrite El. eauto.
  - exists ARun. simpl. unfold Run_step. rewrite El.
    destruct Hloc as [_ Hi]. rewrite <- Hu in Hi.
    destruct (lookup_lt_is_Some_2 _ _ Hi) as [u Hu']. rewrite Hu'. eauto.
  - destruct (wg (checker s) =? 0) eqn:E.
    + exists ARun. simpl. unfold Run_step. rewrite El, E. eauto.
    + apply Nat.eqb_neq in E.
      assert (Hc : 0 < count in_wg (pool s)) by lia.
      destruct (count_pos_lookup _ _ Hc) as (k & p & Hk & Hp).
      unfold in_wg in Hp. apply Nat.leb_le in Hp.
      destruct (Go_step_enabled k idle_env s p HI Hk) as [s' Hs']; [lia|].
      exists (AGo k idle_env), s'. split; [reflexivity | assumption].
  - specialize (Hpa eq_refl). lia.
Qed.

Lemma Go_step_processed k e s s' :
  Inv uc0 s -> Inv uc0 s' -> Go_step k e s = Some s' ->
  processed (checker s') = processed (checker s) \/
  processed (checker s') = (processed (checker s) + 1)%Z.
Proof.
  intros HI HI' H.
  rewrite (inv_processed _ _ HI), (inv_processed _ _ HI').
  pose proof (inv_wf _ _ HI) as Hwf.
  unfold Go_step in H.
  destruct (pool s !! k) as [p|] eqn:Hk; [|discriminate].
  pose proof (Forall_WF_lookup _ _ _ Hwf Hk) as Hp.
  assert (Hc : forall q, weight q < weight p -> 2 <= weight q \/ weight p = 3 ->
                 pool s' = <[k := q]> (pool s) ->
                 count counted (pool s') = count counted (pool s) \/
                 count counted (pool s') = count counted (pool s) + 1).
  { intros q Hlt Hq ->. pose proof (count_insert counted _ _ _ q Hk) as Hci.
    unfold counted in *.
    destruct (Nat.leb_spec (weight p) 2), (Nat.leb_spec (weight q) 2);
      simpl in Hci; lia. }
  destruct p as [|url f|url f|line q|q|q|q]; simpl in Hp.
  - discriminate.
  - injection H as <-. destruct (Hp (new_request e)) as [Hw _].
    assert (HH := Hc (f (new_request e)) ltac:(simpl; lia) ltac:(simpl; lia) eq_refl).
    simpl in HH |- *. lia.
  - injection H as <-. destruct (Hp (do_result e)) as [Hw _].
    assert (HH := Hc (f (do_result e)) ltac:(simpl; lia) ltac:(simpl; lia) eq_refl).
    simpl in HH |- *. lia.
  - destruct Hp as [Hw _].
    destruct (logResult _ _ _) as [[uc' out']|]; [|discriminate].
    injection H as <-.
    assert (HH := Hc q ltac:(simpl; lia) ltac:(simpl; lia) eq_refl).
    simpl in HH |- *. lia.
  - destruct Hp as [Hw _].
    destruct (incrementProcessed _) as [uc'|]; [|discriminate].
    injection H as <-.
    assert (HH := Hc q ltac:(simpl; lia) ltac:(simpl; lia) eq_refl).
    simpl in HH |- *. lia.
  - destruct Hp as [Hw _]. destruct (sem s); [discriminate|].
    injection H as <-.
    pose proof (count_insert counted _ _ _ q Hk) as Hci. unfold counted in *.
    simpl in *. rewrite Hw in Hci. simpl in Hci. lia.
  - destruct Hp as [Hw _]. destruct (wg (checker s)); [discriminate|].
    injection H as <-.
    pose proof (count_insert counted _ _ _ q Hk) as Hci. unfold counted in *.
    simpl in *. rewrite Hw in Hci. simpl in Hci. lia.
Qed.

Lemma stop_step a s s' :
  Inv uc0 s -> stopChan (checker s) = true -> step a s = Some s' ->
  stopChan (checker s') = true /\ dispatch_limit s' = dispatch_limit s.
Proof.
  intros HI Hstop H. unfold dispatch_limit.
  destruct a as [|k e|]; simpl in H.
  - pose proof (inv_loc _ _ HI) as Hloc.
    unfold Run_step in H. destruct (loc s) eqn:El; simpl in Hloc.
    + destruct (threads (checker s) <? 0)%Z; injection H as <-; simpl; auto.
    + rewrite Hstop in H.
      destruct (usernames (checker s) !! i); injection H as <-; simpl; auto.
    + destruct (sem s <? sem_cap s); [|discriminate]. injection H as <-; simpl; auto.
    + injection H as <-; simpl; auto.
    + destruct (usernames (checker s) !! i); [|discriminate].
      injection H as <-; simpl. rewrite length_app. simpl. split; [assumption | lia].
    + destruct (wg (checker s) =? 0); [|discriminate]. injection H as <-; simpl; auto.
    + discriminate.
    + discriminate.
    + discriminate.
  - rewrite (Go_step_loc _ _ _ _ H). unfold Go_step in H.
    destruct (pool s !! k) as [[|url f|url f|line q|q|q|q]|]; try discriminate.
    + injection H as <-. simpl. rewrite length_insert. auto.
    + injection H as <-. simpl. rewrite length_insert. auto.
    + unfold logResult, Lock_resultsMu in H. simpl in H.
      destruct (resultsMu (checker s)); [discriminate|].
      destruct (appendToFile _ _ _). injection H as <-. simpl.
      rewrite length_insert. auto.
    + unfold incrementProcessed, Lock_processedMu in H.
      destruct (processedMu (checker s)); [discriminate|].
      injection H as <-. simpl. rewrite length_insert. auto.
    + destruct (sem s); [discriminate|]. injection H as <-. simpl.
      rewrite length_insert. auto.
    + destruct (wg (checker s)); [discriminate|]. injection H as <-. simpl.
      rewrite length_insert. auto.
  - unfold Signal_step in H. rewrite Hstop in H. discriminate.
Qed.

(** Once the stop channel is closed, no handle after the one being
    dispatched is ever dispatched. *)
Lemma stop_limits_dispatch acts : forall s s',
  Inv uc0 s -> stopChan (checker s) = true -> exec acts s = Some s' ->
  length (pool s') <= dispatch_limit s.
Proof.
  induction acts as [|a acts IH]; intros s s' HI Hstop H; simpl in H.
  - injection H as <-. unfold dispatch_limit.
    pose proof (inv_loc _ _ HI) as Hloc.
    destruct (loc s); simpl in Hloc; lia.
  - destruct (step a s) as [s1|] eqn:E; [|discriminate].
    destruct (stop_step _ _ _ HI Hstop E) as [Hstop1 Hlim].
    rewrite <- Hlim. apply IH; try assumption.
    eapply Inv_step; eassumption.
Qed.

End RunInvariant.

(** ** The properties of the specification *)

(** C1: on this schedule [Run] has returned from the stop case while the
    goroutine of the first handle still waits for its response: the wait
    group counts one, no line is recorded, the counter is 0. The second
    handle was not dispatched. *)
Theorem C1_stop_returns_without_waiting :
  exec stop_sched (start stop_uc) = Some (state_after stop_sched stop_uc) /\
  loc (state_after stop_sched stop_uc) = LStopped /\
  returned (state_after stop_sched stop_uc) = true /\
  map weight (pool (state_after stop_sched stop_uc)) = [5] /\
  wg (checker (state_after stop_sched stop_uc)) = 1 /\
  results (checker (state_after stop_sched stop_uc)) = [] /\
  processed (checker (state_after stop_sched stop_uc)) = 0%Z.
Proof. repeat split. Qed.

(** C2: with at least one slot and no stop signal, [Run] returns only
    from its last line and the processed counter then equals the number
    of input handles; until it has returned some goroutine can move, and
    every move brings the run closer to its end, so [Run] does return
    (the list may also be empty). *)
Theorem C2_processed_equals_total url_Parse us n px out s :
  (1 <= n)%Z ->
  (Z.of_nat (length us) <= int_max)%Z ->
  Reach (NewUsernameChecker url_Parse us n px out) s ->
  stopChan (checker s) = false ->
  (returned s = true ->
     loc s = LReturned /\ processed (checker s) = Z.of_nat (length us)) /\
  (returned s = false ->
     exists a s', is_signal a = false /\ step a s = Some s') /\
  (forall a s', is_signal a = false -> step a s = Some s' -> fuel s' < fuel s).
Proof.
  intros Hn Hmax HR Hstop.
  pose proof (Inv_Reach (NewUsernameChecker url_Parse us n px out) Hmax s
                (NewUsernameChecker_Fresh url_Parse us n px out) HR) as HI.
  split; [|split].
  - intros Hret. unfold returned in Hret.
    destruct (loc s) eqn:El; try discriminate.
    + split; [reflexivity|].
      rewrite (inv_processed _ _ HI).
      rewrite (count_joined_counted _ (inv_joined _ _ HI El)).
      pose proof (inv_loc _ _ HI) as Hloc. rewrite El in Hloc. simpl in Hloc.
      rewrite Hloc. reflexivity.
    + rewrite (inv_stopped _ _ HI El) in Hstop. discriminate.
  - intros Hret. apply (progress _ _ HI); [exact Hn | exact Hret].
  - intros a s' Ha Hs. destruct a as [|k e|]; simpl in *.
    + eapply Run_step_fuel; eassumption.
    + eapply Go_step_fuel; eassumption.
    + discriminate.
Qed.

Lemma C2_witness :
  (returned (state_after demo_all demo_uc) = true ->
     loc (state_after demo_all demo_uc) = LReturned /\
     processed (checker (state_after demo_all demo_uc)) = 2%Z) /\
  (returned (state_after demo_all demo_uc) = false ->
     exists a s', is_signal a = false /\ step a (state_after demo_all demo_uc) = Some s') /\
  (forall a s', is_signal a = false ->
     step a (state_after demo_all demo_uc) = Some s' ->
     fuel s' < fuel (state_after demo_all demo_uc)).
Proof.
  apply (C2_processed_equals_total (fun _ => None) ["@alice"; "@bob"] 1 [] "out.txt").
  - lia.
  - simpl. unfold int_max. lia.
  - exists demo_all. vm_compute. reflexivity.
  - reflexivity.
Defined.

(** C3: with a limit of at least one, in every state of every run the
    number of goroutines inside [checkUsername] is at most the limit;
    the limit stored in the checker never changes and is the capacity of
    the semaphore from its creation on. *)
Theorem C3_concurrency_cap url_Parse us n px out s :
  (1 <= n)%Z ->
  (Z.of_nat (length us) <= int_max)%Z ->
  Reach (NewUsernameChecker url_Parse us n px out) s ->
  (Z.of_nat (count checking (pool s)) <= n)%Z /\
  threads (checker s) = n /\
  (loc s <> LStart -> Z.of_nat (sem_cap s) = n).
Proof.
  intros Hn Hmax HR.
  pose proof (Inv_Reach (NewUsernameChecker url_Parse us n px out) Hmax s
                (NewUsernameChecker_Fresh url_Parse us n px out) HR)
    as [Hu Ht Hrm Hpm Hwf Hloc Hcap Hres Hproc Hsem Hle Hwg Hj Hst Hpa].
  simpl in *.
  assert (Hck : count checking (pool s) <= count holds_slot (pool s)).
  { apply count_imp. intros p. unfold checking, holds_slot.
    intros H. apply Nat.leb_le in H. apply Nat.leb_le. lia. }
  split; [|split].
  - destruct (loc s); simpl in *; try lia.
  - assumption.
  - intros Hne. destruct (loc s) eqn:El; simpl in *; try congruence;
      try specialize (Hpa eq_refl); lia.
Qed.

Lemma C3_witness :
  (Z.of_nat (count checking (pool (state_after demo_mid demo_uc))) <= 1)%Z /\
  threads (checker (state_after demo_mid demo_uc)) = 1%Z /\
  (loc (state_after demo_mid demo_uc) <> LStart ->
   Z.of_nat (sem_cap (state_after demo_mid demo_uc)) = 1%Z).
Proof.
  apply (C3_concurrency_cap (fun _ => None) ["@alice"; "@bob"] 1 [] "out.txt").
  - lia.
  - simpl. unfold int_max. lia.
  - exists demo_mid. vm_compute. reflexivity.
Defined.



(** The literal table of the specification, on the code and on the
    classification. *)
Example checkUsername_free :
  logged (events (mkWorld (fun _ => None)
                    (fun _ => DoOk "https://fragment.com/?query=alice" (BadHTML "eof")))
                 (worker "@alice"))
  = ["@alice | Free" +:+ nl].
Proof. reflexivity. Qed.

Example checkUsername_weird :
  logged (events (mkWorld (fun _ => None)
                    (fun _ => DoOk "https://fragment.com/username/alice" (Doc [" Weird "])))
                 (worker "@alice"))
  = ["@alice | Unknown status (weird)" +:+ nl].
Proof. reflexivity. Qed.

Example checkUsername_missing :
  logged (events (mkWorld (fun _ => None)
                    (fun _ => DoOk "https://fragment.com/username/alice" (Doc [])))
                 (worker "@alice"))
  = ["@alice | Status not found" +:+ nl].
Proof. reflexivity. Qed.

Example spec_classify_free :
  spec_classify "alice" "https://fragment.com/?query=alice" (BadHTML "eof") = Free.
Proof. reflexivity. Qed.

Example spec_classify_taken :
  spec_classify "alice" "https://fragment.com/username/alice" (Doc ["Taken"]) = Taken.
Proof. reflexivity. Qed.

Example spec_classify_weird :
  spec_classify "alice" "https://fragment.com/username/alice" (Doc ["weird"])
  = UnknownStatus "weird".
Proof. reflexivity. Qed.

Example spec_classify_missing :
  spec_classify "alice" "https://fragment.com/username/alice" (Doc []) = NotFound.
Proof. reflexivity. Qed.





(** C7: in every state of every run the processed counter lies between 0
    and the number of input handles, and every step of the program leaves
    it unchanged or adds one to it. *)
Theorem C7_processed_monotone_bounded url_Parse us n px out s :
  (Z.of_nat (length us) <= int_max)%Z ->
  Reach (NewUsernameChecker url_Parse us n px out) s ->
  (0 <= processed (checker s) <= Z.of_nat (length us))%Z /\
  (forall a s', step a s = Some s' ->
     processed (checker s') = processed (checker s) \/
     processed (checker s') = (processed (checker s) + 1)%Z).
Proof.
  intros Hmax HR.
  pose proof (Inv_Reach (NewUsernameChecker url_Parse us n px out) Hmax s
                (NewUsernameChecker_Fresh url_Parse us n px out) HR) as HI.
  split.
  - rewrite (inv_processed _ _ HI).
    pose proof (count_le_length counted (pool s)) as Hc.
    pose proof (inv_loc _ _ HI) as Hloc. simpl in Hloc.
    destruct (loc s); simpl in Hloc; lia.
  - intros a s' Hs.
    pose proof (Inv_step (NewUsernameChecker url_Parse us n px out) Hmax _ _ _ HI Hs) as HI'.
    destruct a as [|k e|]; simpl in Hs.
    + left. apply Run_step_processed. assumption.
    + eapply Go_step_processed; eassumption.
    + left. unfold Signal_step in Hs.
      destruct (stopChan (checker s)); [discriminate|].
      injection Hs as <-. reflexivity.
Qed.

Lemma C7_witness :
  (0 <= processed (checker (state_after demo_mid demo_uc)) <= 2)%Z /\
  (forall a s', step a (state_after demo_mid demo_uc) = Some s' ->
     processed (checker s') = processed (checker (state_after demo_mid demo_uc)) \/
     processed (checker s') =
       (processed (checker (state_after demo_mid demo_uc)) + 1)%Z).
Proof.
  apply (C7_processed_monotone_bounded (fun _ => None) ["@alice"; "@bob"] 1 [] "out.txt").
  - simpl. unfold int_max. lia.
  - exists demo_mid. vm_compute. reflexivity.
Defined.

(** C8: on a checker whose counter mutex is free, [GetProgress] returns
    a value and the checker as it was (results and counter included),
    and any number of calls in a row return that same value and leave
    the checker as it was. *)
Theorem C8_GetProgress_idempotent uc n :
  processedMu uc = false ->
  exists v, GetProgress uc = Some (uc, v) /\
            GetProgress_times n uc = Some (uc, repeat v n).
Proof.
  intros H. eexists. split; [apply GetProgress_free; assumption|].
  induction n as [|n IH]; simpl; [reflexivity|].
  rewrite (GetProgress_free _ H), IH. reflexivity.
Qed.

Lemma C8_witness :
  exists v,
    GetProgress (checker (state_after demo_all demo_uc))
      = Some (checker (state_after demo_all demo_uc), v) /\
    GetProgress_times 3 (checker (state_after demo_all demo_uc))
      = Some (checker (state_after demo_all demo_uc), repeat v 3).
Proof.
  apply (C8_GetProgress_idempotent (checker (state_after demo_all demo_uc)) 3).
  reflexivity.
Defined.

(** C9: when the first proxy string does not parse, the checker is
    built all the same and its client is the plain one, with the 10 s
    time-out and no transport of its own, as when no proxy is given; a
    first proxy that parses becomes the proxy of the transport; in both
    cases the client does not depend on the rest of the list. *)
Theorem C9_first_proxy_only url_Parse us n p rest out err :
  url_Parse p = Some err ->
  client (NewUsernameChecker url_Parse us n (p :: rest) out)
    = mkClient (10 * Second) None /\
  client (NewUsernameChecker url_Parse us n (p :: rest) out)
    = client (NewUsernameChecker url_Parse us n [] out) /\
  (forall q rest', url_Parse q = None ->
     client (NewUsernameChecker url_Parse us n (q :: rest') out)
       = mkClient (10 * Second)
                  (Some (mkTransport q (10 * Second) (10 * Second)))) /\
  (forall q rest',
     client (NewUsernameChecker url_Parse us n (q :: rest') out)
       = client (NewUsernameChecker url_Parse us n [q] out)).
Proof.
  intros H. unfold NewUsernameChecker. simpl. rewrite H.
  repeat split.
  intros q rest' Hq. rewrite Hq. reflexivity.
Qed.

Lemma C9_witness :
  client (NewUsernameChecker url_Parse_scheme ["@alice"] 1
            ["://proxy:1080"; "socks5://127.0.0.1:9050"] "out.txt")
    = mkClient (10 * Second) None /\
  client (NewUsernameChecker url_Parse_scheme ["@alice"] 1
            ["://proxy:1080"; "socks5://127.0.0.1:9050"] "out.txt")
    = client (NewUsernameChecker url_Parse_scheme ["@alice"] 1 [] "out.txt") /\
  (forall q rest', url_Parse_scheme q = None ->
     client (NewUsernameChecker url_Parse_scheme ["@alice"] 1 (q :: rest') "out.txt")
       = mkClient (10 * Second)
                  (Some (mkTransport q (10 * Second) (10 * Second)))) /\
  (forall q rest',
     client (NewUsernameChecker url_Parse_scheme ["@alice"] 1 (q :: rest') "out.txt")
       = client (NewUsernameChecker url_Parse_scheme ["@alice"] 1 [q] "out.txt")).
Proof.
  apply (C9_first_proxy_only url_Parse_scheme ["@alice"] 1 "://proxy:1080"
           ["socks5://127.0.0.1:9050"] "out.txt" "missing protocol scheme").
  reflexivity.
Defined.

Example proxy_parsed :
  ClientTransport
    (client (NewUsernameChecker url_Parse_scheme ["@alice"] 1
               ["socks5://127.0.0.1:9050"; "://proxy:1080"] "out.txt"))
  = Some (mkTransport "socks5://127.0.0.1:9050" (10 * Second) (10 * Second)).
Proof. reflexivity. Qed.

(** C10: for an empty list of handles, in every state of the run
    [GetProgress] returns 0 processed, 0 total and, for the ratio, the
    binary64 quotient 0/0 times 100, which is not a number. *)
Theorem C10_GetProgress_no_handles url_Parse n px out s :
  Reach (NewUsernameChecker url_Parse [] n px out) s ->
  GetProgress (checker s)
    = Some (checker s,
            (0%Z, 0%Z, f64_mul (f64_div (float64 0) (float64 0)) (float64 100))) /\
  f64_div (float64 0) (float64 0) = S754_nan /\
  f64_mul (f64_div (float64 0) (float64 0)) (float64 100) = S754_nan.
Proof.
  intros HR.
  assert (Hmax : (Z.of_nat (length (@nil string)) <= int_max)%Z)
    by (vm_compute; discriminate).
  pose proof (Inv_Reach (NewUsernameChecker url_Parse [] n px out) Hmax s
                (NewUsernameChecker_Fresh url_Parse [] n px out) HR)
    as [Hu Ht Hrm Hpm Hwf Hloc Hcap Hres Hproc Hsem Hle Hwg Hj Hst Hpa].
  simpl in *.
  assert (Hp : processed (checker s) = 0%Z).
  { pose proof (count_le_length counted (pool s)).
    destruct (loc s); simpl in Hloc; lia. }
  split; [|split; reflexivity].
  rewrite (GetProgress_free _ Hpm), Hu, Hp. reflexivity.
Qed.

Lemma C10_witness :
  GetProgress (checker (state_after [ARun; ARun; ARun]
                          (NewUsernameChecker (fun _ => None) [] 10 [] "out.txt")))
    = Some (checker (state_after [ARun; ARun; ARun]
                       (NewUsernameChecker (fun _ => None) [] 10 [] "out.txt")),
            (0%Z, 0%Z, f64_mul (f64_div (float64 0) (float64 0)) (float64 100))) /\
  f64_div (float64 0) (float64 0) = S754_nan /\
  f64_mul (f64_div (float64 0) (float64 0)) (float64 100) = S754_nan.
Proof.
  apply (C10_GetProgress_no_handles (fun _ => None) 10 [] "out.txt").
  exists [ARun; ARun; ARun]. vm_compute. reflexivity.
Defined.

(** ** Further properties of a run *)

Section RunInduction.

Variable uc0 : UsernameChecker.
Hypothesis Hmax : (Z.of_nat (length (usernames uc0)) <= int_max)%Z.

(** The actions a schedule is made of, and a property of states that
    their steps keep. *)
Variable allowed : Action -> Prop.
Variable P : State -> Prop.
Hypothesis P_step : forall a s s',
  allowed a -> Inv uc0 s -> P s -> step a s = Some s' -> P s'.

Lemma exec_keeps acts : forall s s',
  Forall allowed acts -> Inv uc0 s -> P s -> exec acts s = Some s' -> P s'.
Proof.
  induction acts as [|a acts IH]; intros s s' HA HI HP H; simpl in H.
  - injection H as <-. assumption.
  - destruct (step a s) as [s1|] eqn:E; [|discriminate].
    inversion HA as [|? ? Ha HA']; subst.
    apply (IH s1 s'); try assumption.
    + eapply Inv_step; eassumption.
    + eapply P_step; eassumption.
Qed.

End RunInduction.

Lemma Forall_any_action acts : Forall any_action acts.
Proof. induction acts; constructor; [exact I | assumption]. Qed.

(** A property kept by every step holds in every reachable state. *)
Lemma Reach_keeps uc0 (P : State -> Prop) :
  (Z.of_nat (length (usernames uc0)) <= int_max)%Z ->
  Fresh uc0 ->
  P (start uc0) ->
  (forall a s s', Inv uc0 s -> P s -> step a s = Some s' -> P s') ->
  forall s, Reach uc0 s -> P s.
Proof.
  intros Hmax HF H0 Hstep s [acts H].
  apply (exec_keeps uc0 Hmax any_action P) with (acts := acts) (s := start uc0).
  - intros a s1 s2 _. apply Hstep.
  - apply Forall_any_action.
  - apply Inv_start. assumption.
  - assumption.
  - assumption.
Qed.

(** X1: once the stop channel is closed, [Run] starts no goroutine
    beyond the handle it is dispatching: however the run goes on, the
    number of goroutines started stays within [dispatch_limit], which is
    the number already started, plus one when [Run] is past the select
    of the current handle. *)
Theorem X1_stop_no_later_dispatch url_Parse us n px out s acts s' :
  (Z.of_nat (length us) <= int_max)%Z ->
  Reach (NewUsernameChecker url_Parse us n px out) s ->
  stopChan (checker s) = true ->
  exec acts s = Some s' ->
  length (pool s') <= dispatch_limit s.
Proof.
  intros Hmax HR Hstop H.
  pose proof (Inv_Reach (NewUsernameChecker url_Parse us n px out) Hmax s
                (NewUsernameChecker_Fresh url_Parse us n px out) HR) as HI.
  exact (stop_limits_dispatch (NewUsernameChecker url_Parse us n px out) Hmax
           acts s s' HI Hstop H).
Qed.

Lemma X1_witness :
  length (pool (state_after [ASignal; ARun; ARun] demo_uc))
  <= dispatch_limit (state_after [ASignal] demo_uc).
Proof.
  apply (X1_stop_no_later_dispatch (fun _ => None) ["@alice"; "@bob"] 1 [] "out.txt"
           (state_after [ASignal] demo_uc) [ARun; ARun]).
  - simpl. unfold int_max. lia.
  - exists [ASignal]. reflexivity.
  - reflexivity.
  - reflexivity.
Defined.

Lemma weight_zero p : weight p = 0 -> p = PDone.
Proof. destruct p; simpl; intros H; try discriminate; reflexivity. Qed.

Lemma count_false (f : Prog -> bool) (l : list Prog) :
  (forall k p, l !! k = Some p -> f p = false) -> count f l = 0.
Proof.
  induction l as [|x l IH]; intros H; simpl; [reflexivity|].
  rewrite (H 0 x eq_refl). simpl. apply IH. intros k p Hk. apply (H (S k) p Hk).
Qed.

Lemma count_true (f : Prog -> bool) (l : list Prog) :
  (forall k p, l !! k = Some p -> f p = true) -> count f l = length l.
Proof.
  induction l as [|x l IH]; intros H; simpl; [reflexivity|].
  rewrite (H 0 x eq_refl). simpl. f_equal. apply IH.
  intros k p Hk. apply (H (S k) p Hk).
Qed.

(** X2: with a concurrency limit of 0 and at least one handle, [Run]
    never starts a goroutine, records nothing and never reaches its
    wait or its end; once at the send on the semaphore only the stop
    signal can still happen, and it leaves [Run] at the send. *)
Theorem X2_zero_slots_blocks url_Parse us px out s :
  us <> [] ->
  (Z.of_nat (length us) <= int_max)%Z ->
  Reach (NewUsernameChecker url_Parse us 0 px out) s ->
  pool s = [] /\ results (checker s) = [] /\ processed (checker s) = 0%Z /\
  loc s <> LWait /\ loc s <> LReturned /\
  (loc s = LSend 0 ->
   forall a s', step a s = Some s' -> a = ASignal /\ loc s' = LSend 0).
Proof.
  intros Hne Hmax HR.
  set (uc := NewUsernameChecker url_Parse us 0 px out) in *.
  pose proof (Inv_Reach uc Hmax s (NewUsernameChecker_Fresh url_Parse us 0 px out) HR)
    as HI.
  assert (Hpool : pool s = []).
  { revert s HR HI.
    apply (Reach_keeps uc (fun t => Inv uc t -> pool t = []) Hmax
             (NewUsernameChecker_Fresh url_Parse us 0 px out)).
    - reflexivity.
    - intros a s1 s2 HI1 HP Hs HI2. specialize (HP HI1).
      destruct a as [|k e|]; simpl in Hs.
      + unfold Run_step in Hs. destruct (loc s1) eqn:El.
        * destruct (threads (checker s1) <? 0)%Z; injection Hs as <-; assumption.
        * destruct (usernames (checker s1) !! i); [destruct (stopChan (checker s1))|];
            injection Hs as <-; assumption.
        * destruct (sem s1 <? sem_cap s1); [|discriminate]. injection Hs as <-; assumption.
        * injection Hs as <-; assumption.
        * pose proof (inv_sem _ _ HI1) as Hsem. pose proof (inv_sem_le _ _ HI1) as Hle.
          pose proof (inv_cap _ _ HI1) as Hcap. rewrite El in Hsem, Hcap.
          simpl in Hsem, Hcap. destruct Hcap as [_ Hcap]. simpl in Hcap. lia.
        * destruct (wg (checker s1) =? 0); [|discriminate]. injection Hs as <-; assumption.
        * discriminate.
        * discriminate.
        * discriminate.
      + unfold Go_step in Hs. rewrite HP in Hs. discriminate.
      + unfold Signal_step in Hs. destruct (stopChan (checker s1)); [discriminate|].
        injection Hs as <-. assumption. }
  destruct HI as [Hu Ht Hrm Hpm Hwf Hloc Hcap Hres Hproc Hsem Hle Hwg Hj Hst Hpa].
  rewrite Hpool in *. simpl in *.
  assert (Hlen : 0 < length us) by (destruct us; [congruence | simpl; lia]).
  split; [reflexivity|]. split; [destruct (results (checker s)); [reflexivity | discriminate]|].
  split; [assumption|].
  split; [intros El; rewrite El in Hloc; simpl in Hloc; lia|].
  split; [intros El; rewrite El in Hloc; simpl in Hloc; lia|].
  intros El a s' Hs. rewrite El in Hcap. simpl in Hcap. destruct Hcap as [_ Hcap].
  simpl in Hcap.
  destruct a as [|k e|]; simpl in Hs.
  - unfold Run_step in Hs. rewrite El in Hs.
    assert (E : (sem s <? sem_cap s) = false) by (apply Nat.ltb_ge; lia).
    rewrite E in Hs. discriminate.
  - unfold Go_step in Hs. rewrite Hpool in Hs. discriminate.
  - split; [reflexivity|]. unfold Signal_step in Hs.
    destruct (stopChan (checker s)); [discriminate|]. injection Hs as <-. assumption.
Qed.

Lemma X2_witness :
  pool (state_after [ARun; ARun]
          (NewUsernameChecker (fun _ => None) ["@alice"] 0 [] "out.txt")) = [] /\
  results (checker (state_after [ARun; ARun]
          (NewUsernameChecker (fun _ => None) ["@alice"] 0 [] "out.txt"))) = [] /\
  processed (checker (state_after [ARun; ARun]
          (NewUsernameChecker (fun _ => None) ["@alice"] 0 [] "out.txt"))) = 0%Z /\
  loc (state_after [ARun; ARun]
          (NewUsernameChecker (fun _ => None) ["@alice"] 0 [] "out.txt")) <> LWait /\
  loc (state_after [ARun; ARun]
          (NewUsernameChecker (fun _ => None) ["@alice"] 0 [] "out.txt")) <> LReturned /\
  (loc (state_after [ARun; ARun]
          (NewUsernameChecker (fun _ => None) ["@alice"] 0 [] "out.txt")) = LSend 0 ->
   forall a s',
     step a (state_after [ARun; ARun]
               (NewUsernameChecker (fun _ => None) ["@alice"] 0 [] "out.txt")) = Some s' ->
     a = ASignal /\ loc s' = LSend 0).
Proof.
  apply (X2_zero_slots_blocks (fun _ => None) ["@alice"] [] "out.txt").
  - discriminate.
  - simpl. unfold int_max. lia.
  - exists [ARun; ARun]. vm_compute. reflexivity.
Defined.

(** X3: with a negative concurrency limit the first step of [Run], the
    creation of the semaphore, panics; no goroutine is ever started and
    nothing is recorded. *)
Theorem X3_negative_limit_panics url_Parse us n px out s :
  (n < 0)%Z ->
  (Z.of_nat (length us) <= int_max)%Z ->
  Reach (NewUsernameChecker url_Parse us n px out) s ->
  (loc s = LStart \/ loc s = LPanic) /\
  pool s = [] /\ results (checker s) = [] /\
  (forall s', Run_step s = Some s' -> loc s' = LPanic).
Proof.
  intros Hn Hmax HR.
  pose proof (Inv_Reach (NewUsernameChecker url_Parse us n px out) Hmax s
                (NewUsernameChecker_Fresh url_Parse us n px out) HR)
    as [Hu Ht Hrm Hpm Hwf Hloc Hcap Hres Hproc Hsem Hle Hwg Hj Hst Hpa].
  simpl in *.
  assert (Hl : loc s = LStart \/ loc s = LPanic).
  { destruct (loc s); simpl in Hcap; auto; lia. }
  assert (Hp : pool s = []).
  { destruct Hl as [El|El]; rewrite El in Hloc; simpl in Hloc;
      destruct (pool s); [reflexivity | discriminate | reflexivity | discriminate]. }
  split; [assumption|]. split; [assumption|].
  split.
  - rewrite Hp in Hres. simpl in Hres.
    destruct (results (checker s)); [reflexivity | discriminate].
  - intros s' Hs. unfold Run_step in Hs.
    destruct Hl as [El|El]; rewrite El in Hs; [|discriminate].
    rewrite Ht in Hs. destruct (Z.ltb_spec n 0); [|lia].
    injection Hs as <-. reflexivity.
Qed.

Lemma X3_witness :
  (loc (state_after [ARun] (NewUsernameChecker (fun _ => None) ["@alice"] (-1) [] "out.txt"))
     = LStart \/
   loc (state_after [ARun] (NewUsernameChecker (fun _ => None) ["@alice"] (-1) [] "out.txt"))
     = LPanic) /\
  pool (state_after [ARun] (NewUsernameChecker (fun _ => None) ["@alice"] (-1) [] "out.txt"))
    = [] /\
  results (checker (state_after [ARun]
              (NewUsernameChecker (fun _ => None) ["@alice"] (-1) [] "out.txt"))) = [] /\
  (forall s',
     Run_step (state_after [ARun]
                 (NewUsernameChecker (fun _ => None) ["@alice"] (-1) [] "out.txt")) = Some s' ->
     loc s' = LPanic).
Proof.
  apply (X3_negative_limit_panics (fun _ => None) ["@alice"] (-1) [] "out.txt").
  - lia.
  - simpl. unfold int_max. lia.
  - exists [ARun]. vm_compute. reflexivity.
Defined.

Lemma Go_step_log k e s s' line p :
  pool s !! k = Some (PLogResult line p) -> Go_step k e s = Some s' ->
  results (checker s') = results (checker s) ++ [line] /\
  output s' = (if write_ok e then output s ++ [line] else output s).
Proof.
  intros Hk H. unfold Go_step in H. rewrite Hk in H.
  unfold logResult, Lock_resultsMu, appendToFile in H. simpl in H.
  destruct (resultsMu (checker s)); [discriminate|].
  destruct (write_ok e); injection H as <-; simpl; split; reflexivity.
Qed.

Lemma Go_step_other k e s s' p :
  pool s !! k = Some p -> (forall line q, p <> PLogResult line q) ->
  Go_step k e s = Some s' ->
  results (checker s') = results (checker s) /\ output s' = output s.
Proof.
  intros Hk Hne H. unfold Go_step in H. rewrite Hk in H.
  destruct p as [|url f|url f|line q|q|q|q]; try discriminate.
  - injection H as <-. split; reflexivity.
  - injection H as <-. split; reflexivity.
  - destruct (Hne line q eq_refl).
  - unfold incrementProcessed, Lock_processedMu in H.
    destruct (processedMu (checker s)); [discriminate|].
    injection H as <-. split; reflexivity.
  - destruct (sem s); [discriminate|]. injection H as <-. split; reflexivity.
  - destruct (wg (checker s)); [discriminate|]. injection H as <-. split; reflexivity.
Qed.

Lemma Run_step_results s s' :
  Run_step s = Some s' ->
  results (checker s') = results (checker s) /\ output s' = output s.
Proof.
  unfold Run_step. intros H.
  destruct (loc s); simpl in H;
    repeat match type of H with
           | context [match ?x with _ => _ end] => destruct x
           end;
    try discriminate; injection H as <-; split; reflexivity.
Qed.

Lemma Signal_step_results s s' :
  Signal_step s = Some s' ->
  results (checker s') = results (checker s) /\ output s' = output s /\ pool s' = pool s.
Proof.
  unfold Signal_step. destruct (stopChan (checker s)); [discriminate|].
  intros H. injection H as <-. repeat split.
Qed.




Lemma Reports_checkUsername u ret :
  Reports (normalize u) ret -> Reports (normalize u) (checkUsername u ret).
Proof.
  intros Hret. unfold checkUsername.
  change (TrimSpace (TrimPrefix u "@")) with (normalize u).
  set (h := normalize u) in *.
  cbn [Reports]. intros [err|].
  - cbn [Reports]. split; [|assumption]. exists (RequestError err). reflexivity.
  - cbn [Reports]. intros [err | finalURL body].
    + cbn [Reports]. split; [|assumption]. exists (RequestError err). reflexivity.
    + destruct (String.eqb finalURL _).
      * cbn [Reports]. split; [|assumption]. exists Free. reflexivity.
      * destruct body as [err | sel].
        -- cbn [Reports]. split; [|assumption]. exists (ParseError err). reflexivity.
        -- destruct (0 <? Selection_Length sel).
           ++ cbn [Reports]. split; [|assumption].
              set (status := ToLower (TrimSpace (Selection_Text sel))).
              destruct (String.eqb_spec status "sold") as [->|_];
                [exists Sold; reflexivity|].
              destruct (String.eqb_spec status "available") as [->|_];
                [exists Available; reflexivity|].
              destruct (String.eqb_spec status "taken") as [->|_];
                [exists Taken; reflexivity|].
              exists (UnknownStatus status). cbn [orb]. unfold ResultLine, display.
              rewrite !append_assoc. reflexivity.
           ++ cbn [Reports]. split; [|assumption]. exists NotFound. reflexivity.
Qed.

Lemma Reports_worker u : Reports (normalize u) (worker u).
Proof. apply Reports_checkUsername. simpl. exact I. Qed.

Lemma pool_follows_input_step uc0 a s s' :
  Inv uc0 s -> pool_follows_input (usernames uc0) s -> step a s = Some s' ->
  pool_follows_input (usernames uc0) s'.
Proof.
  intros HI [Hp Hr] H. destruct a as [|k e|].
  - change (Run_step s = Some s') in H.
    destruct (Run_step_results _ _ H) as [Hres _].
    split; [|rewrite Hres; assumption].
    pose proof (inv_loc _ _ HI) as Hloc. pose proof (inv_usernames _ _ HI) as Hu.
    unfold Run_step in H. destruct (loc s) eqn:El; simpl in Hloc.
    + destruct (threads (checker s) <? 0)%Z; injection H as <-; assumption.
    + destruct (usernames (checker s) !! i); [destruct (stopChan (checker s))|];
        injection H as <-; assumption.
    + destruct (sem s <? sem_cap s); [|discriminate]. injection H as <-; assumption.
    + injection H as <-; assumption.
    + destruct (usernames (checker s) !! i) as [u|] eqn:Eu; [|discriminate].
      injection H as <-. simpl. intros k p Hk.
      apply lookup_app_Some in Hk. destruct Hk as [Hk1 | [Hge Hk2]].
      * apply Hp. assumption.
      * destruct Hloc as [Hlen _]. rewrite Hlen in Hk2, Hge.
        destruct (k - i) as [|d] eqn:Ed; simpl in Hk2; [|discriminate].
        injection Hk2 as <-. assert (k = i) by lia. subst k.
        exists u. split; [rewrite <- Hu; assumption | apply Reports_worker].
    + destruct (wg (checker s) =? 0); [|discriminate]. injection H as <-; assumption.
    + discriminate.
    + discriminate.
    + discriminate.
  - change (Go_step k e s = Some s') in H.
    destruct (pool s !! k) as [p|] eqn:Hk;
      [|unfold Go_step in H; rewrite Hk in H; discriminate].
    destruct (Hp k p Hk) as (u & Hu & Hrep).
    assert (Hpool : forall q, Reports (normalize u) q -> pool s' = <[k := q]> (pool s) ->
              forall j p', pool s' !! j = Some p' ->
              exists u', usernames uc0 !! j = Some u' /\ Reports (normalize u') p').
    { intros q Hq -> j p' Hj. destruct (Nat.eq_dec j k) as [->|Hne].
      - rewrite list_lookup_insert_eq in Hj by (eapply lookup_lt_Some; eassumption).
        injection Hj as <-. exists u. split; assumption.
      - rewrite list_lookup_insert_ne in Hj by congruence. apply Hp. assumption. }
    destruct p as [|url f|url f|line q|q|q|q]; cbn [Reports] in Hrep.
    + unfold Go_step in H. rewrite Hk in H. discriminate.
    + destruct (Go_step_other k e s s' _ Hk) as [Hres _];
        [intros ? ?; discriminate | assumption |].
      split; [|rewrite Hres; assumption].
      apply (Hpool (f (new_request e)) (Hrep _)).
      unfold Go_step in H. rewrite Hk in H. injection H as <-. reflexivity.
    + destruct (Go_step_other k e s s' _ Hk) as [Hres _];
        [intros ? ?; discriminate | assumption |].
      split; [|rewrite Hres; assumption].
      apply (Hpool (f (do_result e)) (Hrep _)).
      unfold Go_step in H. rewrite Hk in H. injection H as <-. reflexivity.
    + destruct (Go_step_log k e s s' line q Hk H) as [Hres _].
      destruct Hrep as [[o Ho] Hq]. split.
      * apply (Hpool q Hq). unfold Go_step in H. rewrite Hk in H.
        destruct (logResult _ _ _) as [[uc' out']|]; [|discriminate].
        injection H as <-. reflexivity.
      * rewrite Hres. apply Forall_app. split; [assumption|].
        constructor; [|constructor]. exists u, o. split; [|assumption].
        apply list_elem_of_In. eapply list_elem_of_lookup_2. eassumption.
    + destruct (Go_step_other k e s s' _ Hk) as [Hres _];
        [intros ? ?; discriminate | assumption |].
      split; [|rewrite Hres; assumption].
      apply (Hpool q Hrep). unfold Go_step in H. rewrite Hk in H.
      destruct (incrementProcessed _) as [uc'|]; [|discriminate].
      injection H as <-. reflexivity.
    + destruct (Go_step_other k e s s' _ Hk) as [Hres _];
        [intros ? ?; discriminate | assumption |].
      split; [|rewrite Hres; assumption].
      apply (Hpool q Hrep). unfold Go_step in H. rewrite Hk in H.
      destruct (sem s); [discriminate|]. injection H as <-. reflexivity.
    + destruct (Go_step_other k e s s' _ Hk) as [Hres _];
        [intros ? ?; discriminate | assumption |].
      split; [|rewrite Hres; assumption].
      apply (Hpool q Hrep). unfold Go_step in H. rewrite Hk in H.
      destruct (wg (checker s)); [discriminate|]. injection H as <-. reflexivity.
  - change (Signal_step s = Some s') in H.
    destruct (Signal_step_results _ _ H) as (H1 & _ & H3).
    split; [rewrite H3 | rewrite H1]; assumption.
Qed.

(** X5: in every state of a run the goroutine started [k]-th works on
    the [k]-th input handle (dispatch follows the input order), and
    every recorded line is the report line ["@handle | status"] of one
    of the input handles, normalised, for one of the eight outcomes. *)
Theorem X5_lines_report_input_handles url_Parse us n px out s :
  (Z.of_nat (length us) <= int_max)%Z ->
  Reach (NewUsernameChecker url_Parse us n px out) s ->
  (forall k p, pool s !! k = Some p ->
     exists u, us !! k = Some u /\ Reports (normalize u) p) /\
  (forall line, In line (results (checker s)) ->
     exists u o, In u us /\ line = ResultLine (normalize u) o).
Proof.
  intros Hmax HR.
  assert (H : pool_follows_input us s).
  { revert s HR.
    apply (Reach_keeps (NewUsernameChecker url_Parse us n px out)
             (pool_follows_input us) Hmax
             (NewUsernameChecker_Fresh url_Parse us n px out)).
    - split; [intros k p Hk; discriminate | constructor].
    - intros a s1 s2. apply pool_follows_input_step. }
  destruct H as [Hp Hr]. split; [assumption|].
  intros line Hin. rewrite Forall_forall in Hr. apply Hr.
  apply list_elem_of_In. assumption.
Qed.

Lemma X5_witness :
  (forall k p, pool (state_after demo_all demo_uc) !! k = Some p ->
     exists u, ["@alice"; "@bob"] !! k = Some u /\ Reports (normalize u) p) /\
  (forall line, In line (results (checker (state_after demo_all demo_uc))) ->
     exists u o, In u ["@alice"; "@bob"] /\ line = ResultLine (normalize u) o).
Proof.
  apply (X5_lines_report_input_handles (fun _ => None) ["@alice"; "@bob"] 1 [] "out.txt").
  - simpl. unfold int_max. lia.
  - exists demo_all. vm_compute. reflexivity.
Defined.

Lemma in_wg_zero_all_done (l : list Prog) :
  count in_wg l = 0 -> forall k p, l !! k = Some p -> p = PDone.
Proof.
  intros H k p Hk. apply weight_zero.
  destruct (weight p) as [|w] eqn:Ew; [reflexivity|].
  assert (Hp : in_wg p = true) by (unfold in_wg; rewrite Ew; reflexivity).
  pose proof (count_lookup_pos in_wg l k p Hk Hp). lia.
Qed.

Lemma all_done_counts (l : list Prog) :
  (forall k p, l !! k = Some p -> p = PDone) ->
  count recorded l = length l /\ count counted l = length l /\
  count holds_slot l = 0 /\ count in_wg l = 0.
Proof.
  intros H. repeat split.
  - apply count_true. intros k p Hk. rewrite (H k p Hk). reflexivity.
  - apply count_true. intros k p Hk. rewrite (H k p Hk). reflexivity.
  - apply count_false. intros k p Hk. rewrite (H k p Hk). reflexivity.
  - apply count_false. intros k p Hk. rewrite (H k p Hk). reflexivity.
Qed.

(** X6: when [Run] has returned from its last line the run is over:
    one goroutine per handle was started and all have finished, there is
    one recorded line per handle, every slot of the semaphore is free,
    the wait group is at 0, and nothing but the stop signal can still
    happen. *)
Theorem X6_normal_return_is_final url_Parse us n px out s :
  (Z.of_nat (length us) <= int_max)%Z ->
  Reach (NewUsernameChecker url_Parse us n px out) s ->
  loc s = LReturned ->
  length (pool s) = length us /\
  (forall k p, pool s !! k = Some p -> p = PDone) /\
  length (results (checker s)) = length us /\
  sem s = 0 /\ wg (checker s) = 0 /\
  (forall a s', step a s = Some s' -> a = ASignal).
Proof.
  intros Hmax HR El.
  pose proof (Inv_Reach (NewUsernameChecker url_Parse us n px out) Hmax s
                (NewUsernameChecker_Fresh url_Parse us n px out) HR)
    as [Hu Ht Hrm Hpm Hwf Hloc Hcap Hres Hproc Hsem Hle Hwg Hj Hst Hpa].
  specialize (Hj El). rewrite El in *. simpl in *.
  pose proof (in_wg_zero_all_done _ Hj) as Hdone.
  destruct (all_done_counts _ Hdone) as (H1 & H2 & H3 & H4).
  split; [assumption|]. split; [assumption|].
  split; [lia|]. split; [lia|]. split; [lia|].
  intros a s' Hs. destruct a as [|k e|]; [| |reflexivity].
  - simpl in Hs. unfold Run_step in Hs. rewrite El in Hs. discriminate.
  - simpl in Hs. unfold Go_step in Hs.
    destruct (pool s !! k) as [p|] eqn:Hk; [|discriminate].
    rewrite (Hdone k p Hk) in Hs. discriminate.
Qed.

Lemma X6_witness :
  length (pool (state_after demo_all demo_uc)) = 2 /\
  (forall k p, pool (state_after demo_all demo_uc) !! k = Some p -> p = PDone) /\
  length (results (checker (state_after demo_all demo_uc))) = 2 /\
  sem (state_after demo_all demo_uc) = 0 /\
  wg (checker (state_after demo_all demo_uc)) = 0 /\
  (forall a s', step a (state_after demo_all demo_uc) = Some s' -> a = ASignal).
Proof.
  apply (X6_normal_return_is_final (fun _ => None) ["@alice"; "@bob"] 1 [] "out.txt").
  - simpl. unfold int_max. lia.
  - exists demo_all. vm_compute. reflexivity.
  - reflexivity.
Defined.

(** X7: in a state where no started goroutine can move, whether [Run]
    was stopped or not, every started goroutine has finished, has its
    line recorded and is counted: the lines and the counter both equal
    the number of goroutines started. *)
Theorem X7_drained_pool_is_recorded url_Parse us n px out s :
  (Z.of_nat (length us) <= int_max)%Z ->
  Reach (NewUsernameChecker url_Parse us n px out) s ->
  (forall k, Go_step k idle_env s = None) ->
  (forall k p, pool s !! k = Some p -> p = PDone) /\
  length (results (checker s)) = length (pool s) /\
  processed (checker s) = Z.of_nat (length (pool s)).
Proof.
  intros Hmax HR Hq.
  pose proof (Inv_Reach (NewUsernameChecker url_Parse us n px out) Hmax s
                (NewUsernameChecker_Fresh url_Parse us n px out) HR) as HI.
  assert (Hdone : forall k p, pool s !! k = Some p -> p = PDone).
  { intros k p Hk. apply weight_zero.
    destruct (weight p) as [|w] eqn:Ew; [reflexivity|].
    destruct (Go_step_enabled _ k idle_env s p HI Hk) as [s' Hs']; [lia|].
    rewrite Hq in Hs'. discriminate. }
  destruct (all_done_counts _ Hdone) as (H1 & H2 & _ & _).
  split; [assumption|]. split.
  - rewrite (inv_results _ _ HI). assumption.
  - rewrite (inv_processed _ _ HI), H2. reflexivity.
Qed.

Lemma X7_witness :
  (forall k p, pool (state_after demo_all demo_uc) !! k = Some p -> p = PDone) /\
  length (results (checker (state_after demo_all demo_uc)))
    = length (pool (state_after demo_all demo_uc)) /\
  processed (checker (state_after demo_all demo_uc))
    = Z.of_nat (length (pool (state_after demo_all demo_uc))).
Proof.
  apply (X7_drained_pool_is_recorded (fun _ => None) ["@alice"; "@bob"] 1 [] "out.txt").
  - simpl. unfold int_max. lia.
  - exists demo_all. vm_compute. reflexivity.
  - intros [|[|k]]; reflexivity.
Defined.



(** ** The input file *)

Lemma readLines_loop_step pending final lines :
  readLines_loop pending final lines =
  match ReadString_nl pending with
  | (line, Some rest) =>
      readLines_loop rest final
        (if String.eqb (TrimSpace line) "" then lines else lines ++ [TrimSpace line])
  | (line, None) =>
      (if String.eqb (TrimSpace line) "" then lines else lines ++ [TrimSpace line],
       match final with EOF => None | ReadFailure err => Some err end)
  end.
Proof.
  funelim (readLines_loop pending final lines).
  - rewrite Hread. reflexivity.
  - rewrite Hread. destruct final; reflexivity.
Qed.

Lemma ReadString_nl_line l rest :
  has_nl l = false -> ReadString_nl (l +:+ nl +:+ rest) = (l +:+ nl, Some rest).
Proof.
  induction l as [|c l IH]; intros H.
  - reflexivity.
  - cbn [has_nl] in H. apply orb_false_iff in H. destruct H as [Hc Hl].
    cbn [String.append ReadString_nl]. rewrite Hc, (IH Hl). reflexivity.
Qed.

Lemma ReadString_nl_last l : has_nl l = false -> ReadString_nl l = (l, None).
Proof.
  induction l as [|c l IH]; simpl; intros H.
  - reflexivity.
  - apply orb_false_iff in H. destruct H as [Hc Hl].
    rewrite Hc, (IH Hl). reflexivity.
Qed.


Lemma TrimRightSpace_app_nl s : TrimRightSpace (s +:+ nl) = TrimRightSpace s.
Proof.
  induction s as [|c s IH]; simpl; [reflexivity|]. rewrite IH. reflexivity.
Qed.

Lemma TrimSpace_app_nl s : TrimSpace (s +:+ nl) = TrimSpace s.
Proof.
  unfold TrimSpace. induction s as [|c s IH]; [reflexivity|].
  change (String c s +:+ nl) with (String c (s +:+ nl)).
  cbn [TrimLeftSpace]. destruct (isSpace c); [assumption|].
  apply (TrimRightSpace_app_nl (String c s)).
Qed.









Lemma eqb_empty_false s : s <> EmptyString -> String.eqb s "" = false.
Proof. intros H. apply String.eqb_neq. assumption. Qed.




Lemma ReadString_nl_split pending :
  match ReadString_nl pending with
  | (line, Some rest) =>
      exists body, line = body +:+ nl /\ split_nl pending = body :: split_nl rest
  | (line, None) => split_nl pending = [line]
  end.
Proof.
  induction pending as [|c p IH]; simpl.
  - reflexivity.
  - destruct (Ascii.eqb c (ascii_of_nat 10)) eqn:Ec.
    + apply Ascii.eqb_eq in Ec. subst c. exists EmptyString. split; reflexivity.
    + destruct (ReadString_nl p) as [l [rest|]].
      * destruct IH as (body & -> & Hs). exists (String c body).
        split; [reflexivity|]. rewrite Hs. reflexivity.
      * rewrite IH. reflexivity.
Qed.

Lemma kept_lines_app acc line :
  (if String.eqb (TrimSpace line) "" then acc else acc ++ [TrimSpace line])
  = acc ++ List.filter not_blank [TrimSpace line].
Proof.
  unfold not_blank. simpl. destruct (String.eqb (TrimSpace line) ""); simpl;
    [rewrite app_nil_r|]; reflexivity.
Qed.

Lemma readLines_loop_split pending final lines :
  readLines_loop pending final lines =
  (lines ++ List.filter not_blank (List.map TrimSpace (split_nl pending)),
   match final with EOF => None | ReadFailure err => Some err end).
Proof.
  funelim (readLines_loop pending final lines).
  - cbv zeta. rewrite H. clear H.
    pose proof (ReadString_nl_split pending) as Hs. rewrite Hread in Hs.
    destruct Hs as (body & -> & ->).
    rewrite kept_lines_app, TrimSpace_app_nl. simpl.
    destruct (not_blank (TrimSpace body)); simpl;
      rewrite <- ?app_assoc, ?app_nil_r; reflexivity.
  - cbv zeta.
    pose proof (ReadString_nl_split pending) as Hs. rewrite Hread in Hs. rewrite Hs.
    rewrite kept_lines_app. destruct final; reflexivity.
Qed.


(** X11: a file that cannot be opened gives no line and the error; a
    file read to its end gives no error; a read error gives the error
    together with the lines read before it, the same lines as if the
    file had ended there. *)
Theorem X11_readLines_errors :
  (forall err, readLines (OpenFailed err) = ([], Some err)) /\
  (forall content, snd (readLines (Opened content EOF)) = None) /\
  (forall content err,
     readLines (Opened content (ReadFailure err))
     = (fst (readLines (Opened content EOF)), Some err)).
Proof.
  split; [reflexivity|]. split.
  - intros content. simpl. rewrite readLines_loop_split. reflexivity.
  - intros content err. simpl. rewrite !readLines_loop_split. reflexivity.
Qed.






(** ** Handles *)

Lemma substring_all s : String.substring 0 (String.length s) s = s.
Proof. induction s as [|c s IH]; simpl; [reflexivity | rewrite IH; reflexivity]. Qed.

Lemma TrimPrefix_at u : TrimPrefix ("@" +:+ u) "@" = u.
Proof.
  unfold TrimPrefix, HasPrefix. simpl.
  destruct u as [|c u]; [reflexivity|].
  rewrite Nat.sub_0_r. apply (substring_all (String c u)).
Qed.

Lemma TrimPrefix_none u : HasPrefix u "@" = false -> TrimPrefix u "@" = u.
Proof. unfold TrimPrefix. intros ->. reflexivity. Qed.

(** X13: the leading [@] of a handle is optional: for a handle that does
    not start with [@], the goroutine started for it and the goroutine
    started for it with [@] in front are the same program (same request,
    same reported line). Only one [@] is taken off. *)
Theorem X13_at_sign_is_optional u :
  HasPrefix u "@" = false ->
  worker ("@" +:+ u) = worker u /\
  normalize ("@" +:+ u) = TrimSpace u /\
  normalize ("@@" +:+ u) = TrimSpace ("@" +:+ u).
Proof.
  intros H.
  assert (Hn : normalize ("@" +:+ u) = normalize u).
  { unfold normalize. rewrite TrimPrefix_at, (TrimPrefix_none u H). reflexivity. }
  split; [|split].
  - unfold worker, checkUsername.
    change (TrimSpace (TrimPrefix ("@" +:+ u) "@")) with (normalize ("@" +:+ u)).
    change (TrimSpace (TrimPrefix u "@")) with (normalize u).
    rewrite Hn. reflexivity.
  - unfold normalize. rewrite TrimPrefix_at. reflexivity.
  - unfold normalize. change ("@@" +:+ u) with ("@" +:+ ("@" +:+ u)).
    rewrite TrimPrefix_at. reflexivity.
Qed.

Lemma X13_witness :
  worker ("@" +:+ "alice") = worker "alice" /\
  normalize ("@" +:+ "alice") = TrimSpace "alice" /\
  normalize ("@@" +:+ "alice") = TrimSpace ("@" +:+ "alice").
Proof.
  apply (X13_at_sign_is_optional "alice"). reflexivity.
Defined.



(** ** The logger *)

Lemma files_set_file_eq os path content :
  files (set_file os path content) path = Some content.
Proof. simpl. rewrite String.eqb_refl. reflexivity. Qed.

Lemma files_set_file_ne os path content p :
  p <> path -> files (set_file os path content) p = files os p.
Proof. intros H. simpl. apply String.eqb_neq in H. rewrite H. reflexivity. Qed.

Lemma unlines_app l1 l2 : unlines (l1 ++ l2) = unlines l1 +:+ unlines l2.
Proof.
  induction l1 as [|l l1 IH]; simpl; [reflexivity|].
  rewrite IH, !append_assoc. reflexivity.
Qed.

Lemma append_empty_r s : s +:+ "" = s.
Proof. induction s as [|c s IH]; simpl; [|rewrite IH]; reflexivity. Qed.

(** One call of [logf] on a logger whose mutex is free. *)
Lemma logf_spec level levelStr msg file line l os :
  mu l = false ->
  exists os', logf level levelStr msg file line l os = Some os' /\
    open_error os' = open_error os /\ clock os' = clock os /\
    (forall p, p <> logFile l -> files os' p = files os p) /\
    if (level <? logLevel l)%Z
    then os' = os
    else
      ticks os' = S (ticks os) /\
      file_content os' (logFile l)
        = file_content os (logFile l)
            +:+ format_log (clock os (ticks os)) levelStr msg file line +:+ nl /\
      List.map line_text (console os')
        = List.map line_text (console os)
            ++ [format_log (clock os (ticks os)) levelStr msg file line].
Proof.
  intros Hmu. unfold logf. rewrite Hmu.
  destruct (level <? logLevel l)%Z.
  - exists os. repeat split.
  - unfold Now. cbv zeta.
    destruct (useColor l); eexists; (split; [reflexivity|]);
      (split; [reflexivity|]); (split; [reflexivity|]);
      (split; [intros p Hp; simpl; apply String.eqb_neq in Hp; rewrite Hp; reflexivity|]);
      (split; [reflexivity|]);
      (split; [unfold file_content; simpl; rewrite String.eqb_refl; reflexivity|]);
      simpl; rewrite map_app; reflexivity.
Qed.

(** X15: a sequence of calls of [logf] on a logger whose mutex is free
    never waits; the calls whose level is below the threshold leave no
    trace; the others append their formatted lines, in order, to the log
    file and print the same lines on standard output; no other file is
    touched. *)
Theorem X15_logger_filters_and_mirrors calls : forall l os,
  mu l = false ->
  exists os', logf_all calls l os = Some os' /\
    file_content os' (logFile l)
      = file_content os (logFile l)
          +:+ unlines (log_lines (clock os) (ticks os) (List.filter (passes l) calls)) /\
    List.map line_text (console os')
      = List.map line_text (console os)
          ++ log_lines (clock os) (ticks os) (List.filter (passes l) calls) /\
    (forall p, p <> logFile l -> files os' p = files os p).
Proof.
  induction calls as [|c calls IH]; intros l os Hmu.
  - exists os. simpl. rewrite append_empty_r, app_nil_r. repeat split.
  - destruct (logf_spec (call_level c) (call_levelStr c) (call_msg c) (call_file c)
                (call_line c) l os Hmu) as (os1 & H1 & _ & Hclock & Hframe & Hcase).
    destruct (IH l os1 Hmu) as (os2 & H2 & Hfile & Hcons & Hframe2).
    exists os2. cbn [logf_all List.filter]. rewrite H1.
    split; [assumption|].
    assert (Hp : passes l c = negb (call_level c <? logLevel l)%Z) by reflexivity.
    rewrite Hp. clear Hp.
    destruct (call_level c <? logLevel l)%Z; cbn [negb].
    + subst os1. split; [assumption|]. split; assumption.
    + destruct Hcase as (Hticks & Hf1 & Hc1). cbn [log_lines unlines].
      rewrite Hclock, Hticks in Hfile, Hcons.
      split; [rewrite Hfile, Hf1, !append_assoc; reflexivity|].
      split; [rewrite Hcons, Hc1, <- app_assoc; reflexivity|].
      intros p Hp. rewrite (Hframe2 p Hp). apply Hframe. assumption.
Qed.

Lemma X15_witness :
  exists os',
    logf_all [mkLogCall DEBUG "DEBUG" "sending" "main.go" 0;
              mkLogCall ERROR "ERROR" "failed" "main.go" 0]
             (mkLogger false "checker.log" INFO true) demo_os = Some os' /\
    file_content os' (logFile (mkLogger false "checker.log" INFO true))
      = file_content demo_os (logFile (mkLogger false "checker.log" INFO true))
          +:+ unlines (log_lines (clock demo_os) (ticks demo_os)
                (List.filter (passes (mkLogger false "checker.log" INFO true))
                   [mkLogCall DEBUG "DEBUG" "sending" "main.go" 0;
                    mkLogCall ERROR "ERROR" "failed" "main.go" 0])) /\
    List.map line_text (console os')
      = List.map line_text (console demo_os)
          ++ log_lines (clock demo_os) (ticks demo_os)
               (List.filter (passes (mkLogger false "checker.log" INFO true))
                  [mkLogCall DEBUG "DEBUG" "sending" "main.go" 0;
                   mkLogCall ERROR "ERROR" "failed" "main.go" 0]) /\
    (forall p, p <> logFile (mkLogger false "checker.log" INFO true) ->
       files os' p = files demo_os p).
Proof.
  apply (X15_logger_filters_and_mirrors
           [mkLogCall DEBUG "DEBUG" "sending" "main.go" 0;
            mkLogCall ERROR "ERROR" "failed" "main.go" 0]
           (mkLogger false "checker.log" INFO true) demo_os).
  reflexivity.
Defined.

Example logger_drops_debug_below_info :
  logf_all [mkLogCall DEBUG "DEBUG" "sending" "main.go" 0;
            mkLogCall ERROR "ERROR" "failed" "a/b/main.go" 12]
           (mkLogger false "checker.log" INFO true) demo_os
  = Some (mkOS (files (set_file demo_os "checker.log"
                  ("2024-01-01T00:00:00Z - ERROR - failed (main.go:12)" +:+ nl)))
               (open_error demo_os)
               [mkConsoleLine (Some Red)
                  "2024-01-01T00:00:00Z - ERROR - failed (main.go:12)"]
               (clock demo_os) 1).
Proof. reflexivity. Qed.

(** ** The start of [main] *)

Lemma logf_frame level levelStr msg file line l os :
  mu l = false ->
  exists os', logf level levelStr msg file line l os = Some os' /\
    open_error os' = open_error os /\
    (forall p, p <> logFile l -> files os' p = files os p).
Proof.
  intros Hmu.
  destruct (logf_spec level levelStr msg file line l os Hmu)
    as (os' & H & He & _ & Hf & _).
  exists os'. auto.
Qed.

Lemma NewLogger_ok filePath level color os :
  open_error os filePath = None ->
  exists os', NewLogger filePath level color os
              = (inr (mkLogger false filePath level color), os') /\
    open_error os' = open_error os /\
    (forall p, p <> filePath -> files os' p = files os p).
Proof.
  intros H. unfold NewLogger, OpenFile_append. rewrite H.
  destruct (files os filePath).
  - exists os. auto.
  - eexists. split; [reflexivity|]. split; [reflexivity|].
    intros p Hp. apply files_set_file_ne. assumption.
Qed.

(** The start of [main] when both paths are given and the log file and
    the output file can be opened: [os3] is the system once the output
    file has been emptied, and the rest depends on reading the input. *)
Lemma main_setup_after_truncation url_Parse fl os :
  inputPath fl <> "" -> outputPath fl <> "" ->
  open_error os (logPath fl) = None -> open_error os (outputPath fl) = None ->
  exists os3,
    files os3 (outputPath fl) = Some "" /\
    (forall p, p <> outputPath fl -> p <> logPath fl -> files os3 p = files os p) /\
    open_error os3 = open_error os /\
    exists os',
      (forall p, p <> logPath fl -> files os' p = files os3 p) /\
      main_setup url_Parse fl os =
      Some (match readLines (Open (inputPath fl) os3) with
            | (_, Some err) => Exit 1
            | (us, None) =>
                Ready (mkLogger false (logPath fl) DEBUG (negb (noColor fl)))
                      (NewUsernameChecker url_Parse us (threadsFlag fl)
                         (if String.eqb (proxiesFlag fl) "" then []
                          else SplitByte "," (proxiesFlag fl))
                         (outputPath fl))
            end, os').
Proof.
  intros Hin Hout Hlog Hopen. unfold main_setup.
  apply String.eqb_neq in Hin, Hout. rewrite Hin, Hout. cbn [orb].
  destruct (NewLogger_ok (logPath fl) DEBUG (negb (noColor fl)) os Hlog)
    as (os1 & -> & He1 & Hf1).
  set (logger := mkLogger false (logPath fl) DEBUG (negb (noColor fl))).
  assert (H2 : exists os2,
    (if String.eqb (proxiesFlag fl) "" then Some os1
     else Logger_Info logger
            ("Using proxies: " +:+ fmt_strings
               (if String.eqb (proxiesFlag fl) "" then []
                else SplitByte "," (proxiesFlag fl)))
            "main.go" 0 os1) = Some os2 /\
    open_error os2 = open_error os1 /\
    (forall p, p <> logPath fl -> files os2 p = files os1 p)).
  { destruct (String.eqb (proxiesFlag fl) "").
    - exists os1. auto.
    - apply (logf_frame INFO "INFO" _ "main.go" 0 logger os1). reflexivity. }
  destruct H2 as (os2 & -> & He2 & Hf2).
  unfold OpenFile_trunc. rewrite He2, He1, Hopen.
  exists (set_file os2 (outputPath fl) "").
  split; [apply files_set_file_eq|].
  split; [intros p Hp1 Hp2; rewrite files_set_file_ne by assumption;
          rewrite Hf2 by assumption; apply Hf1; assumption|].
  split; [simpl; congruence|].
  destruct (readLines (Open (inputPath fl) (set_file os2 (outputPath fl) "")))
    as [us [err|]].
  - destruct (logf_frame CRITICAL "CRITICAL"
                ("Failed to read input file " +:+ inputPath fl +:+ ": " +:+ err)
                "main.go" 0 logger (set_file os2 (outputPath fl) "") eq_refl)
      as (os' & H & _ & Hf).
    exists os'. split; [exact Hf|]. unfold Logger_Critical. rewrite H. reflexivity.
  - destruct (logf_frame INFO "INFO"
                ("Loaded " +:+ itoa (Z.of_nat (length us)) +:+ " usernames from "
                   +:+ inputPath fl +:+ ".")
                "main.go" 0 logger (set_file os2 (outputPath fl) "") eq_refl)
      as (os' & H & _ & Hf).
    exists os'. split; [exact Hf|]. unfold Logger_Info. rewrite H. reflexivity.
Qed.

(** X16: when a path is missing on the command line, or the log file
    cannot be opened, [main] exits with status 1 and has changed no
    file. *)
Theorem X16_main_exits_before_touching_files url_Parse fl os :
  inputPath fl = "" \/ outputPath fl = "" \/ open_error os (logPath fl) <> None ->
  exists os', main_setup url_Parse fl os = Some (Exit 1, os') /\ files os' = files os.
Proof.
  intros H. unfold main_setup.
  destruct (String.eqb_spec (inputPath fl) "") as [_|Hin];
    [eexists; split; reflexivity|].
  destruct (String.eqb_spec (outputPath fl) "") as [_|Hout];
    [eexists; split; reflexivity|].
  cbn [orb]. destruct H as [H | [H | H]]; [contradiction | contradiction|].
  unfold NewLogger, OpenFile_append.
  destruct (open_error os (logPath fl)); [|contradiction].
  eexists; split; reflexivity.
Qed.

Lemma X16_witness :
  exists os', main_setup (fun _ => None)
                (mkFlags "in.txt" "" 10 "" "checker.log" false) demo_os
              = Some (Exit 1, os') /\
              files os' = files demo_os.
Proof.
  apply (X16_main_exits_before_touching_files (fun _ => None)
           (mkFlags "in.txt" "" 10 "" "checker.log" false) demo_os).
  right. left. reflexivity.
Defined.

(** X17: when the input and the output are the same file, [main]
    empties it before reading it: the checker is built with no handle
    at all, and (the log being another file) the file is left empty. *)
Theorem X17_same_input_and_output_loses_handles url_Parse fl os :
  inputPath fl = outputPath fl -> inputPath fl <> "" ->
  open_error os (logPath fl) = None -> open_error os (outputPath fl) = None ->
  exists logger checker os',
    main_setup url_Parse fl os = Some (Ready logger checker, os') /\
    usernames checker = [] /\
    (logPath fl <> inputPath fl -> files os' (inputPath fl) = Some "").
Proof.
  intros Hsame Hin Hlog Hopen.
  assert (Hout : outputPath fl <> "") by congruence.
  destruct (main_setup_after_truncation url_Parse fl os Hin Hout Hlog Hopen)
    as (os3 & Hempty & _ & He3 & os' & Hf & Hmain).
  assert (Hread : Open (inputPath fl) os3 = Opened "" EOF).
  { unfold Open. rewrite He3, Hsame, Hopen, Hempty. reflexivity. }
  rewrite Hread in Hmain.
  change (readLines (Opened "" EOF)) with (@nil string, @None string) in Hmain.
  eexists _, _, os'. split; [exact Hmain|]. split; [reflexivity|].
  intros Hne. rewrite Hf by congruence. rewrite Hsame. assumption.
Qed.

Lemma X17_witness :
  exists logger checker os',
    main_setup (fun _ => None) same_file_flags demo_os
      = Some (Ready logger checker, os') /\
    usernames checker = [] /\
    (logPath same_file_flags <> inputPath same_file_flags ->
     files os' (inputPath same_file_flags) = Some "").
Proof.
  apply (X17_same_input_and_output_loses_handles (fun _ => None) same_file_flags demo_os).
  - reflexivity.
  - discriminate.
  - reflexivity.
  - reflexivity.
Defined.



(** X19: when the input file cannot be opened, [main] exits with status
    1, but only after it has emptied the output file: what an earlier
    run wrote there is gone although nothing was checked. *)
Theorem X19_missing_input_still_empties_output url_Parse fl os :
  inputPath fl <> "" -> outputPath fl <> "" ->
  inputPath fl <> outputPath fl ->
  logPath fl <> inputPath fl -> logPath fl <> outputPath fl ->
  open_error os (logPath fl) = None -> open_error os (outputPath fl) = None ->
  files os (inputPath fl) = None \/ open_error os (inputPath fl) <> None ->
  exists os',
    main_setup url_Parse fl os = Some (Exit 1, os') /\
    files os' (outputPath fl) = Some "".
Proof.
  intros Hin Hout Hne Hl1 Hl2 Hlog Hopen Hmissing.
  destruct (main_setup_after_truncation url_Parse fl os Hin Hout Hlog Hopen)
    as (os3 & Hempty & Hf3 & He3 & os' & Hf & Hmain).
  assert (Hread : exists err, Open (inputPath fl) os3 = OpenFailed err).
  { unfold Open. rewrite He3, (Hf3 (inputPath fl)) by congruence.
    destruct (open_error os (inputPath fl)) as [err|]; [eauto|].
    destruct Hmissing as [-> | Hc]; [eauto | contradiction]. }
  destruct Hread as [err Hread]. rewrite Hread in Hmain. simpl in Hmain.
  exists os'. split; [exact Hmain|].
  rewrite Hf by congruence. assumption.
Qed.

Lemma X19_witness :
  exists os',
    main_setup (fun _ => None) missing_input_flags demo_os = Some (Exit 1, os') /\
    files os' (outputPath missing_input_flags) = Some "".
Proof.
  apply (X19_missing_input_still_empties_output (fun _ => None)
           missing_input_flags demo_os);
    try discriminate; try reflexivity.
  left. reflexivity.
Defined.

Lemma SplitByte_none sep q : has_byte sep q = false -> SplitByte sep q = [q].
Proof.
  induction q as [|c q IH]; simpl; intros H; [reflexivity|].
  apply orb_false_iff in H. destruct H as [Hc Hq]. rewrite Hc, (IH Hq). reflexivity.
Qed.

Lemma SplitByte_first sep q rest :
  has_byte sep q = false ->
  SplitByte sep (q +:+ String sep rest) = q :: SplitByte sep rest.
Proof.
  induction q as [|c q IH]; simpl; intros H.
  - rewrite Ascii.eqb_refl. reflexivity.
  - apply orb_false_iff in H. destruct H as [Hc Hq]. rewrite Hc, (IH Hq). reflexivity.
Qed.

(** X20: of a proxy flag with several proxies separated by commas, only
    the text before the first comma reaches the client: the client is
    the one built for that proxy alone. *)
Theorem X20_only_first_proxy_of_flag url_Parse us n out q :
  has_byte "," q = false ->
  client (NewUsernameChecker url_Parse us n (SplitByte "," q) out)
    = client (NewUsernameChecker url_Parse us n [q] out) /\
  (forall rest,
     client (NewUsernameChecker url_Parse us n (SplitByte "," (q +:+ "," +:+ rest)) out)
       = client (NewUsernameChecker url_Parse us n [q] out)).
Proof.
  intros H. split.
  - rewrite (SplitByte_none _ _ H). reflexivity.
  - intros rest. change ("," +:+ rest) with (String "," rest).
    rewrite (SplitByte_first _ _ rest H). reflexivity.
Qed.

Lemma X20_witness :
  client (NewUsernameChecker url_Parse_scheme ["@alice"] 10
            (SplitByte "," "socks5://127.0.0.1:9050") "out.txt")
    = client (NewUsernameChecker url_Parse_scheme ["@alice"] 10
                ["socks5://127.0.0.1:9050"] "out.txt") /\
  (forall rest,
     client (NewUsernameChecker url_Parse_scheme ["@alice"] 10
               (SplitByte "," ("socks5://127.0.0.1:9050" +:+ "," +:+ rest)) "out.txt")
       = client (NewUsernameChecker url_Parse_scheme ["@alice"] 10
                   ["socks5://127.0.0.1:9050"] "out.txt")).
Proof.
  apply (X20_only_first_proxy_of_flag url_Parse_scheme ["@alice"] 10 "out.txt"
           "socks5://127.0.0.1:9050").
  reflexivity.
Defined.

(** ** From the command line to the end of the run *)





(** X22: in every state of a run the semaphore holds exactly one element
    per goroutine that has not yet freed its slot, plus one while [Run]
    has taken a slot for a goroutine it has not started yet, and never
    more than its capacity; the wait group counts exactly the goroutines
    that have not finished, plus one between [Add] and the [go]
    statement. *)
Theorem X22_slots_and_wait_group_are_exact url_Parse us n px out s :
  (Z.of_nat (length us) <= int_max)%Z ->
  Reach (NewUsernameChecker url_Parse us n px out) s ->
  sem s = count holds_slot (pool s) + pending_sem (loc s) /\
  sem s <= sem_cap s /\
  wg (checker s) = count in_wg (pool s) + pending_wg (loc s).
Proof.
  intros Hmax HR.
  pose proof (Inv_Reach (NewUsernameChecker url_Parse us n px out) Hmax s
                (NewUsernameChecker_Fresh url_Parse us n px out) HR) as HI.
  split; [apply (inv_sem _ _ HI)|]. split; [apply (inv_sem_le _ _ HI)|].
  apply (inv_wg _ _ HI).
Qed.

Lemma X22_witness :
  sem (state_after demo_mid demo_uc)
    = count holds_slot (pool (state_after demo_mid demo_uc))
      + pending_sem (loc (state_after demo_mid demo_uc)) /\
  sem (state_after demo_mid demo_uc) <= sem_cap (state_after demo_mid demo_uc) /\
  wg (checker (state_after demo_mid demo_uc))
    = count in_wg (pool (state_after demo_mid demo_uc))
      + pending_wg (loc (state_after demo_mid demo_uc)).
Proof.
  apply (X22_slots_and_wait_group_are_exact (fun _ => None) ["@alice"; "@bob"] 1 []
           "out.txt").
  - simpl. unfold int_max. lia.
  - exists demo_mid. vm_compute. reflexivity.
Defined.
